(** * Contact form handler (contact-form.js): validation and page feedback

    A shallow embedding of the script: JavaScript strings as sequences of
    UTF-16 code units, the e-mail pattern as a regular expression run by a
    derivative matcher, the validator as pure functions, and the DOM side as
    a store of elements threaded through a small state-and-exception monad. *)

From Stdlib Require Import NArith Ascii String List Lia Bool.
From stdpp Require Import base decidable option list.

Open Scope N_scope.
Open Scope nat_scope.

(* ===================================================================== *)
(** ** JavaScript strings *)
(* ===================================================================== *)

(** A string value is its sequence of UTF-16 code units; [length] is the
    JavaScript [.length]. *)
Abbreviation jsstring := (list N).

(** An ASCII source literal as a string value. *)
Definition lit (s : string) : jsstring :=
  map N_of_ascii (list_ascii_of_string s).

(** ToBoolean on a string: only the empty string is falsy. *)
Definition truthy (s : jsstring) : bool :=
  match s with
  | [] => false
  | _ :: _ => true
  end.

(** WhiteSpace and LineTerminator code points of ECMAScript: what
    [String.prototype.trim] strips and what [\s] matches. *)
Definition is_ws (c : N) : bool :=
  ((c =? 9) || (c =? 10) || (c =? 11) || (c =? 12) || (c =? 13) ||
   (c =? 32) || (c =? 160) || (c =? 5760) ||
   ((8192 <=? c) && (c <=? 8202)) ||
   (c =? 8232) || (c =? 8233) || (c =? 8239) || (c =? 8287) ||
   (c =? 12288) || (c =? 65279))%N.

Fixpoint trimStart (s : jsstring) : jsstring :=
  match s with
  | [] => []
  | c :: s' => if is_ws c then trimStart s' else s
  end.

Definition trimEnd (s : jsstring) : jsstring :=
  rev (trimStart (rev s)).

(** [String.prototype.trim]. *)
Definition trim (s : jsstring) : jsstring :=
  trimEnd (trimStart s).

(* ===================================================================== *)
(** ** Regular expressions *)
(* ===================================================================== *)

(** The members of a character class. *)
Inductive ClassAtom : Type :=
| ClassChar (c : N)          (* a literal code unit *)
| ClassSpace.                (* the escape \s *)

Definition atom_matches (a : ClassAtom) (c : N) : bool :=
  match a with
  | ClassChar c' => (c =? c')%N
  | ClassSpace => is_ws c
  end.

Inductive regex : Type :=
| Void                                   (* matches nothing *)
| Eps                                    (* matches the empty string *)
| Chr (c : N)                            (* a literal or escaped character *)
| Class (negated : bool) (atoms : list ClassAtom)   (* [...] and [^...] *)
| Cat (r1 r2 : regex)
| Alt (r1 r2 : regex)
| Star (r : regex).

(** [r+] *)
Definition Plus (r : regex) : regex := Cat r (Star r).

Definition class_matches (negated : bool) (atoms : list ClassAtom) (c : N) : bool :=
  xorb negated (existsb (fun a => atom_matches a c) atoms).

Fixpoint nullable (r : regex) : bool :=
  match r with
  | Void => false
  | Eps => true
  | Chr _ => false
  | Class _ _ => false
  | Cat r1 r2 => nullable r1 && nullable r2
  | Alt r1 r2 => nullable r1 || nullable r2
  | Star _ => true
  end.

(** The derivative of [r] by the code unit [c]. *)
Fixpoint deriv (c : N) (r : regex) : regex :=
  match r with
  | Void => Void
  | Eps => Void
  | Chr c' => if (c =? c')%N then Eps else Void
  | Class neg atoms => if class_matches neg atoms c then Eps else Void
  | Cat r1 r2 =>
      if nullable r1
      then Alt (Cat (deriv c r1) r2) (deriv c r2)
      else Cat (deriv c r1) r2
  | Alt r1 r2 => Alt (deriv c r1) (deriv c r2)
  | Star r1 => Cat (deriv c r1) (Star r1)
  end.

(** [/^r$/.test(s)]: without the [m] flag the anchors are the ends of the
    input, so the test is whether [r] matches the whole of [s]. *)
Fixpoint test (r : regex) (s : jsstring) : bool :=
  match s with
  | [] => nullable r
  | c :: s' => test (deriv c r) s'
  end.

(** The class [[^\s@]]. *)
Definition notSpaceAt : regex := Class true [ClassSpace; ClassChar 64%N].

(** [/^[^\s@]+@[^\s@]+\.[^\s@]+$/] *)
Definition emailRegex : regex :=
  Cat (Plus notSpaceAt)
      (Cat (Chr 64%N)
           (Cat (Plus notSpaceAt)
                (Cat (Chr 46%N)
                     (Plus notSpaceAt)))).

Definition isValidEmail (email : jsstring) : bool :=
  test emailRegex email.

(* ===================================================================== *)
(** ** The validator *)
(* ===================================================================== *)

(** The object literal built by the submit handler. *)
Record FormRecord : Type := {
  d_name : jsstring;
  d_email : jsstring;
  d_subject : jsstring;
  d_message : jsstring
}.

Record ValidationError : Type := {
  field : jsstring;
  message : jsstring
}.

(** [errors.push(e)] *)
Definition push {A} (errors : list A) (e : A) : list A := errors ++ [e].

Definition validateForm (data : FormRecord) : list ValidationError :=
  let errors := [] in
  let errors :=
    if negb (truthy (d_name data)) then
      push errors {| field := lit "name"; message := lit "Name is required" |}
    else if length (d_name data) <? 2 then
      push errors {| field := lit "name"; message := lit "Name must be at least 2 characters" |}
    else errors in
  let errors :=
    if negb (truthy (d_email data)) then
      push errors {| field := lit "email"; message := lit "Email is required" |}
    else if negb (isValidEmail (d_email data)) then
      push errors {| field := lit "email"; message := lit "Please enter a valid email address" |}
    else errors in
  let errors :=
    if negb (truthy (d_subject data)) then
      push errors {| field := lit "subject"; message := lit "Subject is required" |}
    else if length (d_subject data) <? 3 then
      push errors {| field := lit "subject"; message := lit "Subject must be at least 3 characters" |}
    else errors in
  let errors :=
    if negb (truthy (d_message data)) then
      push errors {| field := lit "message"; message := lit "Message is required" |}
    else if length (d_message data) <? 10 then
      push errors {| field := lit "message"; message := lit "Message must be at least 10 characters" |}
    else errors in
  errors.

(** The [switch] of validateSingleField: the value left in [error] for a
    field name and an already trimmed value ([None] is [null]). *)
Definition validateField (fieldName value : jsstring) : option jsstring :=
  if decide (fieldName = lit "name") then
    if negb (truthy value) then Some (lit "Name is required")
    else if length value <? 2 then Some (lit "Name must be at least 2 characters")
    else None
  else if decide (fieldName = lit "email") then
    if negb (truthy value) then Some (lit "Email is required")
    else if negb (isValidEmail value) then Some (lit "Please enter a valid email address")
    else None
  else if decide (fieldName = lit "subject") then
    if negb (truthy value) then Some (lit "Subject is required")
    else if length value <? 3 then Some (lit "Subject must be at least 3 characters")
    else None
  else if decide (fieldName = lit "message") then
    if negb (truthy value) then Some (lit "Message is required")
    else if length value <? 10 then Some (lit "Message must be at least 10 characters")
    else None
  else None.

(* ===================================================================== *)
(** ** The page: elements, timers and listeners *)
(* ===================================================================== *)

(** Elements are held in a store in document order; a node is its index.
    List items made by [createElement] are added at the end. The markup is
    the surrounding page's: each element records the attributes and the
    structural links the script reads. *)
Abbreviation node := nat.

Record Element : Type := mkElement {
  localName : jsstring;
  el_id : jsstring;                     (* the id attribute *)
  el_name : jsstring;                   (* the name attribute *)
  value : jsstring;
  defaultValue : jsstring;
  form : option node;                   (* the form owner of a control *)
  classList : list jsstring;            (* an ordered set of tokens *)
  textContent : jsstring;               (* the text last assigned *)
  children : list node;                 (* child elements appended by the script *)
  disabled : bool;
  attributes : list (jsstring * jsstring);
  nextElementSibling : option node;
  querySelector_i : option node         (* querySelector('i') of this element *)
}.

Definition with_value (v : jsstring) (e : Element) : Element :=
  mkElement (localName e) (el_id e) (el_name e) v (defaultValue e) (form e)
            (classList e) (textContent e) (children e) (disabled e)
            (attributes e) (nextElementSibling e) (querySelector_i e).

Definition with_classList (cl : list jsstring) (e : Element) : Element :=
  mkElement (localName e) (el_id e) (el_name e) (value e) (defaultValue e) (form e)
            cl (textContent e) (children e) (disabled e)
            (attributes e) (nextElementSibling e) (querySelector_i e).

(** Assigning [textContent] (or [innerHTML]) replaces the element's content. *)
Definition with_textContent (t : jsstring) (e : Element) : Element :=
  mkElement (localName e) (el_id e) (el_name e) (value e) (defaultValue e) (form e)
            (classList e) t [] (disabled e)
            (attributes e) (nextElementSibling e) (querySelector_i e).

Definition with_children (ch : list node) (e : Element) : Element :=
  mkElement (localName e) (el_id e) (el_name e) (value e) (defaultValue e) (form e)
            (classList e) (textContent e) ch (disabled e)
            (attributes e) (nextElementSibling e) (querySelector_i e).

Definition with_disabled (b : bool) (e : Element) : Element :=
  mkElement (localName e) (el_id e) (el_name e) (value e) (defaultValue e) (form e)
            (classList e) (textContent e) (children e) b
            (attributes e) (nextElementSibling e) (querySelector_i e).

Definition with_attributes (a : list (jsstring * jsstring)) (e : Element) : Element :=
  mkElement (localName e) (el_id e) (el_name e) (value e) (defaultValue e) (form e)
            (classList e) (textContent e) (children e) (disabled e)
            a (nextElementSibling e) (querySelector_i e).

(** What [document.createElement] returns: a detached element. *)
Definition newElement (tag : jsstring) : Element :=
  mkElement tag [] [] [] [] None [] [] [] false [] None None.

(** The closures handed to [setTimeout], with what they capture. *)
Inductive Callback : Type :=
| CbSubmitForm (data : FormRecord)             (* () => submitForm(data) *)
| CbRemoveShake (form : option node)           (* () => form.classList.remove('shake') *)
| CbHideSuccess (successMessage : option node). (* () => successMessage.classList.add('hidden') *)

Inductive EventType : Type := submit | blur | input.

(** The three anonymous listener functions of the script. *)
Inductive Listener : Type := OnSubmit | OnBlur | OnInput.

Global Instance EventType_eq_dec : EqDecision EventType.
Proof. solve_decision. Defined.

Record Page : Type := mkPage {
  doc : list Element;
  timers : list (Callback * nat);              (* pending callbacks and their delays *)
  listeners : list (node * EventType * Listener)
}.

Definition with_doc (d : list Element) (p : Page) : Page :=
  mkPage d (timers p) (listeners p).

(* ===================================================================== *)
(** ** Running script code: state and exceptions *)
(* ===================================================================== *)

(** A statement either completes with a value or throws; the changes made
    to the page before a throw stay. *)
Inductive Outcome (A : Type) : Type :=
| Normal (a : A)
| Throw.
Arguments Normal {A} a.
Arguments Throw {A}.

Definition M (A : Type) : Type := Page -> Outcome A * Page.

Definition ret {A} (a : A) : M A := fun p => (Normal a, p).

Definition throw {A} : M A := fun p => (Throw, p).

Definition bind {A B} (m : M A) (k : A -> M B) : M B :=
  fun p =>
    match m p with
    | (Normal a, p') => k a p'
    | (Throw, p') => (Throw, p')
    end.

Declare Scope js_scope.
Delimit Scope js_scope with js.
Notation "'let*' x ':=' m 'in' k" := (bind m (fun x => k))
  (at level 10, x name, m at level 100, k at level 200) : js_scope.
Notation "m ';;' k" := (bind m (fun _ => k))
  (at level 100, k at level 200, right associativity) : js_scope.
Open Scope js_scope.

(** The page a statement leaves behind. *)
Definition exec {A} (m : M A) (p : Page) : Page := snd (m p).

(** [l.forEach(f)] *)
Fixpoint forEach {A} (l : list A) (f : A -> M unit) : M unit :=
  match l with
  | [] => ret tt
  | x :: l' => f x ;; forEach l' f
  end.

(** Reading a property of [null] throws a TypeError; so does a reference
    that is not in the store. *)
Definition element (r : option node) : M Element :=
  fun p =>
    match r with
    | None => (Throw, p)
    | Some n =>
        match doc p !! n with
        | Some e => (Normal e, p)
        | None => (Throw, p)
        end
    end.

Definition update (r : option node) (f : Element -> Element) : M unit :=
  let* e := element r in
  fun p =>
    match r with
    | Some n => (Normal tt, with_doc (<[n := f e]> (doc p)) p)
    | None => (Throw, p)
    end.

Definition find_id (i : jsstring) (d : list Element) : option node :=
  fst <$> list_find (fun e => el_id e = i) d.

Definition getElementById (i : jsstring) : M (option node) :=
  fun p => (Normal (find_id i (doc p)), p).

Definition createElement (tag : jsstring) : M (option node) :=
  fun p => (Normal (Some (length (doc p))), with_doc (doc p ++ [newElement tag]) p).

(** [DOMTokenList.add]: each token is appended unless already there. *)
Definition tokens_add (cl tokens : list jsstring) : list jsstring :=
  fold_left (fun cl t => if decide (t ∈ cl) then cl else cl ++ [t]) tokens cl.

(** [DOMTokenList.remove] *)
Definition tokens_remove (cl tokens : list jsstring) : list jsstring :=
  fold_left (fun cl t => filter (fun t' => t' <> t) cl) tokens cl.

Definition classList_add (r : option node) (tokens : list jsstring) : M unit :=
  update r (fun e => with_classList (tokens_add (classList e) tokens) e).

Definition classList_remove (r : option node) (tokens : list jsstring) : M unit :=
  update r (fun e => with_classList (tokens_remove (classList e) tokens) e).

Definition classList_contains (r : option node) (token : jsstring) : M bool :=
  let* e := element r in
  ret (bool_decide (token ∈ classList e)).

Definition set_textContent (r : option node) (t : jsstring) : M unit :=
  update r (with_textContent t).

(** [r.innerHTML = ''] *)
Definition clear_innerHTML (r : option node) : M unit :=
  update r (with_textContent []).

Definition appendChild (r : option node) (child : option node) : M unit :=
  update r (fun e =>
    match child with
    | Some c => with_children (children e ++ [c]) e
    | None => e
    end).

Definition set_disabled (r : option node) (b : bool) : M unit :=
  update r (with_disabled b).

Fixpoint attr_set (k v : jsstring) (a : list (jsstring * jsstring)) : list (jsstring * jsstring) :=
  match a with
  | [] => [(k, v)]
  | (k', v') :: a' => if decide (k' = k) then (k, v) :: a' else (k', v') :: attr_set k v a'
  end.

Definition setAttribute (r : option node) (k v : jsstring) : M unit :=
  update r (fun e => with_attributes (attr_set k v (attributes e)) e).

Definition get_nextElementSibling (r : option node) : M (option node) :=
  let* e := element r in ret (nextElementSibling e).

Definition querySelector_I (r : option node) : M (option node) :=
  let* e := element r in ret (querySelector_i e).

(** [r.scrollIntoView(...)]: the scroll position is not part of the page
    state, the call only needs its receiver. *)
Definition scrollIntoView (r : option node) : M unit :=
  let* _ := element r in ret tt.

Definition setTimeout (cb : Callback) (delay : nat) : M unit :=
  fun p => (Normal tt, mkPage (doc p) (timers p ++ [(cb, delay)]) (listeners p)).

Definition addEventListener (r : option node) (ev : EventType) (l : Listener) : M unit :=
  let* _ := element r in
  fun p =>
    match r with
    | Some n => (Normal tt, mkPage (doc p) (timers p) (listeners p ++ [(n, ev, l)]))
    | None => (Throw, p)
    end.

(** [form.reset()]: every control owned by the form goes back to its
    default value; only form elements have the method. *)
Definition form_reset (r : option node) : M unit :=
  let* e := element r in
  if decide (localName e = lit "form") then
    fun p =>
      (Normal tt,
       with_doc (map (fun c => if decide (form c = r) then with_value (defaultValue c) c else c)
                     (doc p)) p)
  else throw.

(** The nodes the selector ['input, textarea'] matches, in document order. *)
Definition inputsAndTextareas (d : list Element) : list node :=
  map fst (filter (fun ne => localName (snd ne) = lit "input" \/
                              localName (snd ne) = lit "textarea")
                  (imap pair d)).

(** [document.querySelectorAll('input, textarea')] *)
Definition querySelectorAll_input_textarea : M (list node) :=
  fun p => (Normal (inputsAndTextareas (doc p)), p).

(** The entries of [new FormData(form)], as the browser hands them over. *)
Abbreviation FormData := (list (jsstring * jsstring)).

(** [formData.get(k)]: the first entry of that name, or [null]. *)
Definition formData_get (k : jsstring) (fd : FormData) : option jsstring :=
  snd <$> find (fun kv => bool_decide (fst kv = k)) fd.

(** [formData.get(k).trim()] *)
Definition get_trim (fd : FormData) (k : jsstring) : M jsstring :=
  match formData_get k fd with
  | Some v => ret (trim v)
  | None => throw
  end.

(* ===================================================================== *)
(** ** The script *)
(* ===================================================================== *)

Section Script.

(** [lucide.createIcons()], the icon library of the surrounding page. *)
Variable createIcons : M unit.

Definition showErrors (errors : list ValidationError) : M unit :=
  let* errorMessage := getElementById (lit "error-message") in
  let* errorList := getElementById (lit "error-list") in
  clear_innerHTML errorList ;;
  forEach errors (fun error =>
    let* li := createElement (lit "li") in
    set_textContent li (message error) ;;
    appendChild errorList li ;;
    let* field := getElementById (field error) in
    match field with
    | Some _ =>
        classList_add field [lit "border-red-500"; lit "bg-red-50"] ;;
        classList_remove field [lit "border-gray-300"] ;;
        let* errorDiv := get_nextElementSibling field in
        match errorDiv with
        | Some _ =>
            let* c := classList_contains errorDiv (lit "error-message") in
            if c then
              set_textContent errorDiv (message error) ;;
              classList_remove errorDiv [lit "hidden"]
            else ret tt
        | None => ret tt
        end
    | None => ret tt
    end) ;;
  classList_remove errorMessage [lit "hidden"] ;;
  classList_add errorMessage [lit "slide-in"] ;;
  let* form := getElementById (lit "contact-form") in
  classList_add form [lit "shake"] ;;
  setTimeout (CbRemoveShake form) 500 ;;
  scrollIntoView errorMessage.

Definition clearErrors : M unit :=
  (let* r := getElementById (lit "error-message") in classList_add r [lit "hidden"]) ;;
  (let* r := getElementById (lit "success-message") in classList_add r [lit "hidden"]) ;;
  let fields := [lit "name"; lit "email"; lit "subject"; lit "message"] in
  forEach fields (fun fieldName =>
    let* field := getElementById fieldName in
    match field with
    | Some _ =>
        classList_remove field [lit "border-red-500"; lit "bg-red-50"] ;;
        classList_add field [lit "border-gray-300"] ;;
        let* errorDiv := get_nextElementSibling field in
        match errorDiv with
        | Some _ =>
            let* c := classList_contains errorDiv (lit "error-message") in
            if c then classList_add errorDiv [lit "hidden"] else ret tt
        | None => ret tt
        end
    | None => ret tt
    end).

Definition showLoading : M unit :=
  let* submitBtn := getElementById (lit "submit-btn") in
  let* btnText := getElementById (lit "btn-text") in
  let* icon := querySelector_I submitBtn in
  set_disabled submitBtn true ;;
  set_textContent btnText (lit "Sending...") ;;
  setAttribute icon (lit "data-lucide") (lit "loader-2") ;;
  classList_add icon [lit "animate-spin"] ;;
  createIcons.

Definition resetButton : M unit :=
  let* submitBtn := getElementById (lit "submit-btn") in
  let* btnText := getElementById (lit "btn-text") in
  let* icon := querySelector_I submitBtn in
  set_disabled submitBtn false ;;
  set_textContent btnText (lit "Launch Message") ;;
  setAttribute icon (lit "data-lucide") (lit "send") ;;
  classList_remove icon [lit "animate-spin"] ;;
  createIcons.

(** [console.log] leaves the page as it is. *)
Definition submitForm (data : FormRecord) : M unit :=
  (let* r := getElementById (lit "contact-form") in form_reset r) ;;
  let* successMessage := getElementById (lit "success-message") in
  classList_remove successMessage [lit "hidden"] ;;
  classList_add successMessage [lit "slide-in"] ;;
  resetButton ;;
  scrollIntoView successMessage ;;
  setTimeout (CbHideSuccess successMessage) 5000.

Definition validateSingleField (field : node) : M unit :=
  let* e := element (Some field) in
  let value := trim (value e) in
  let fieldName := el_name e in
  let error := validateField fieldName value in
  match error with
  | Some error =>
      if truthy error then
        classList_add (Some field) [lit "border-red-500"; lit "bg-red-50"] ;;
        classList_remove (Some field) [lit "border-gray-300"] ;;
        let* errorDiv := get_nextElementSibling (Some field) in
        match errorDiv with
        | Some _ =>
            let* c := classList_contains errorDiv (lit "error-message") in
            if c then
              set_textContent errorDiv error ;;
              classList_remove errorDiv [lit "hidden"]
            else ret tt
        | None => ret tt
        end
      else ret tt
  | None => ret tt
  end.

(** The [input] listener of setupRealTimeValidation. *)
Definition onInput (this : node) : M unit :=
  let* c := classList_contains (Some this) (lit "border-red-500") in
  if c then
    classList_remove (Some this) [lit "border-red-500"; lit "bg-red-50"] ;;
    classList_add (Some this) [lit "border-gray-300"] ;;
    let* errorDiv := get_nextElementSibling (Some this) in
    match errorDiv with
    | Some _ =>
        let* c := classList_contains errorDiv (lit "error-message") in
        if c then classList_add errorDiv [lit "hidden"] else ret tt
    | None => ret tt
    end
  else ret tt.

(** The [blur] listener of setupRealTimeValidation. *)
Definition onBlur (this : node) : M unit :=
  validateSingleField this.

(** The [submit] listener of setupFormSubmission; [e.preventDefault()]
    has no effect on the page state. *)
Definition onSubmit (fd : FormData) : M unit :=
  clearErrors ;;
  let* name := get_trim fd (lit "name") in
  let* email := get_trim fd (lit "email") in
  let* subject := get_trim fd (lit "subject") in
  let* message := get_trim fd (lit "message") in
  let data := {| d_name := name; d_email := email;
                 d_subject := subject; d_message := message |} in
  let errors := validateForm data in
  if 0 <? length errors then
    showErrors errors
  else
    showLoading ;;
    setTimeout (CbSubmitForm data) 1500.

Definition setupFormSubmission : M unit :=
  let* r := getElementById (lit "contact-form") in
  addEventListener r submit OnSubmit.

Definition setupRealTimeValidation : M unit :=
  let* inputs := querySelectorAll_input_textarea in
  forEach inputs (fun input_ =>
    addEventListener (Some input_) blur OnBlur ;;
    addEventListener (Some input_) input OnInput).

(** The DOMContentLoaded listener. *)
Definition onDOMContentLoaded : M unit :=
  createIcons ;;
  setupFormSubmission ;;
  setupRealTimeValidation.

(** Running a timer callback. *)
Definition runCallback (cb : Callback) : M unit :=
  match cb with
  | CbSubmitForm data => submitForm data
  | CbRemoveShake form => classList_remove form [lit "shake"]
  | CbHideSuccess successMessage => classList_add successMessage [lit "hidden"]
  end.

Definition runListener (l : Listener) (this : node) (fd : FormData) : M unit :=
  match l with
  | OnSubmit => onSubmit fd
  | OnBlur => onBlur this
  | OnInput => onInput this
  end.

(** What the event loop does next: an event dispatched on a target (a
    submit event comes with the form's entries), or a pending timer firing. *)
Inductive Event : Type :=
| Dispatch (ev : EventType) (target : node) (fd : FormData)
| Fire (k : nat).

(** The listeners registered on the target for the event run in order; an
    uncaught exception ends that listener only. *)
Definition dispatch (ev : EventType) (target : node) (fd : FormData) (p : Page) : Page :=
  fold_left
    (fun p '(n, ev', l) =>
       if decide (n = target /\ ev' = ev) then exec (runListener l target fd) p else p)
    (listeners p) p.

Definition fire (k : nat) (p : Page) : Page :=
  match timers p !! k with
  | Some (cb, _) => exec (runCallback cb) (mkPage (doc p) (delete k (timers p)) (listeners p))
  | None => p
  end.

Definition step (e : Event) (p : Page) : Page :=
  match e with
  | Dispatch ev target fd => dispatch ev target fd p
  | Fire k => fire k p
  end.

Definition run (es : list Event) (p : Page) : Page :=
  fold_left (fun p e => step e p) es p.

End Script.

(* ===================================================================== *)
(** ** Vocabulary of the statements *)
(* ===================================================================== *)

(** The four fields of the form, in declaration order. *)
Inductive FieldName : Type := FName | FEmail | FSubject | FMessage.

Definition fieldKey (f : FieldName) : jsstring :=
  match f with
  | FName => lit "name"
  | FEmail => lit "email"
  | FSubject => lit "subject"
  | FMessage => lit "message"
  end.

Definition fieldValue (f : FieldName) (data : FormRecord) : jsstring :=
  match f with
  | FName => d_name data
  | FEmail => d_email data
  | FSubject => d_subject data
  | FMessage => d_message data
  end.

(** The record with one field replaced. *)
Definition setField (f : FieldName) (v : jsstring) (data : FormRecord) : FormRecord :=
  match f with
  | FName => {| d_name := v; d_email := d_email data;
                d_subject := d_subject data; d_message := d_message data |}
  | FEmail => {| d_name := d_name data; d_email := v;
                 d_subject := d_subject data; d_message := d_message data |}
  | FSubject => {| d_name := d_name data; d_email := d_email data;
                   d_subject := v; d_message := d_message data |}
  | FMessage => {| d_name := d_name data; d_email := d_email data;
                   d_subject := d_subject data; d_message := v |}
  end.

(** The rule table of the validator: required message, and the message of
    the length or pattern check. *)
Definition requiredMessage (f : FieldName) : jsstring :=
  match f with
  | FName => lit "Name is required"
  | FEmail => lit "Email is required"
  | FSubject => lit "Subject is required"
  | FMessage => lit "Message is required"
  end.

Definition extraMessage (f : FieldName) : jsstring :=
  match f with
  | FName => lit "Name must be at least 2 characters"
  | FEmail => lit "Please enter a valid email address"
  | FSubject => lit "Subject must be at least 3 characters"
  | FMessage => lit "Message must be at least 10 characters"
  end.

(** The messages an error list holds for a field key, in order. *)
Definition errorsFor (k : jsstring) (errors : list ValidationError) : list jsstring :=
  message <$> filter (fun e => field e = k) errors.

(** The record the submit handler builds from the raw control values. *)
Definition trimmed (raw : FormRecord) : FormRecord :=
  {| d_name := trim (d_name raw); d_email := trim (d_email raw);
     d_subject := trim (d_subject raw); d_message := trim (d_message raw) |}.

(** The raw control values of a submit event, when all four are there. *)
Definition rawRecord (fd : FormData) : option FormRecord :=
  match formData_get (lit "name") fd, formData_get (lit "email") fd,
        formData_get (lit "subject") fd, formData_get (lit "message") fd with
  | Some n, Some e, Some s, Some m =>
      Some {| d_name := n; d_email := e; d_subject := s; d_message := m |}
  | _, _, _, _ => None
  end.

(** [ContactFormConfig.validationRules]: the minimum lengths. *)
Definition minLength (f : FieldName) : option nat :=
  match f with
  | FName => Some 2
  | FEmail => None
  | FSubject => Some 3
  | FMessage => Some 10
  end.

(** A result of the single-field validator as an error list. *)
Definition fieldErrors (f : FieldName) (v : jsstring) : list ValidationError :=
  match validateField (fieldKey f) v with
  | Some m => [{| field := fieldKey f; message := m |}]
  | None => []
  end.

(** What it is for a regular expression to match a whole string. *)
Inductive matches : regex -> jsstring -> Prop :=
| MEps : matches Eps []
| MChr c : matches (Chr c) [c]
| MClass neg atoms c :
    class_matches neg atoms c = true -> matches (Class neg atoms) [c]
| MCat r1 r2 s1 s2 :
    matches r1 s1 -> matches r2 s2 -> matches (Cat r1 r2) (s1 ++ s2)
| MAltL r1 r2 s : matches r1 s -> matches (Alt r1 r2) s
| MAltR r1 r2 s : matches r2 s -> matches (Alt r1 r2) s
| MStarNil r : matches (Star r) []
| MStarApp r s1 s2 :
    matches r s1 -> matches (Star r) s2 -> matches (Star r) (s1 ++ s2).

(** A code unit the class [[^\s@]] accepts. *)
Definition plainChar (c : N) : Prop := is_ws c = false /\ c <> 64%N.

(** *** Observations of the page and frames of the statements *)

(** The element a reference stands for, if any. *)
Definition deref (r : option node) (p : Page) : option Element :=
  match r with
  | Some n => doc p !! n
  | None => None
  end.


(** The element carries the class of an inline error message. *)
Definition errorClass (e : Element) : Prop := lit "error-message" ∈ classList e.

(** The disabled flag of the submit button, and the label in [btn-text]. *)
Definition buttonDisabled (p : Page) : option bool :=
  match find_id (lit "submit-btn") (doc p) with
  | Some n => disabled <$> doc p !! n
  | None => None
  end.

Definition buttonLabel (p : Page) : option jsstring :=
  match find_id (lit "btn-text") (doc p) with
  | Some n => textContent <$> doc p !! n
  | None => None
  end.

(** The records of the submissions that are pending in the timer queue. *)
Definition submissions (p : Page) : list FormRecord :=
  omap (fun t => match fst t with CbSubmitForm d => Some d | _ => None end) (timers p).

(** Every run of [m] relates the page before to the page after by [R],
    whether [m] completes or throws. *)
Definition preserves {A} (R : Page -> Page -> Prop) (m : M A) : Prop :=
  forall p, R p (exec m p).

(** Every element of [p] is still there in [p'], related by [K]. *)
Definition frame (K : Element -> Element -> Prop) (p p' : Page) : Prop :=
  forall n e, doc p !! n = Some e -> exists e', doc p' !! n = Some e' /\ K e e'.

(** What the button state machine needs of an element: its id, its
    disabled flag, whether it is an inline error message, and the text of
    the label element (as long as it is not an inline error message). *)
Record buttonKept (e e' : Element) : Prop := {
  bk_id : el_id e' = el_id e;
  bk_disabled : disabled e' = disabled e;
  bk_errorClass : errorClass e' <-> errorClass e;
  bk_text : el_id e = lit "btn-text" -> ~ errorClass e -> textContent e' = textContent e
}.

(** The same, with the markup (tag, name, form owner, default value and
    structural links) untouched as well. *)
Record kept (e e' : Element) : Prop := {
  kept_button : buttonKept e e';
  kept_localName : localName e' = localName e;
  kept_name : el_name e' = el_name e;
  kept_form : form e' = form e;
  kept_default : defaultValue e' = defaultValue e;
  kept_next : nextElementSibling e' = nextElementSibling e;
  kept_icon : querySelector_i e' = querySelector_i e
}.

(** A statement is quiet when it keeps every element in that sense, starts
    no submission and registers no listener. *)
Definition quiet (p p' : Page) : Prop :=
  frame kept p p' /\ submissions p' = submissions p /\ listeners p' = listeners p.

(** The label element exists and is not an inline error message. *)
Definition labelFree (p : Page) : Prop :=
  exists n e, find_id (lit "btn-text") (doc p) = Some n /\
              doc p !! n = Some e /\ ~ errorClass e.

(** The submit button and the label element are there, and the label is
    not an inline error message. *)
Definition buttonContract (p : Page) : Prop :=
  is_Some (find_id (lit "submit-btn") (doc p)) /\ labelFree p.

(** The two states of the submit button, as the page shows them. *)
Inductive ButtonState : Type := Idle | Loading.

Definition inState (st : ButtonState) (p : Page) : Prop :=
  match st with
  | Idle => buttonDisabled p = Some false /\ buttonLabel p = Some (lit "Launch Message")
  | Loading => buttonDisabled p = Some true /\ buttonLabel p = Some (lit "Sending...")
  end.

(** The button shows the same flag and label on both pages. *)
Definition sameButton (p p' : Page) : Prop :=
  buttonDisabled p' = buttonDisabled p /\ buttonLabel p' = buttonLabel p.

(** From a page with the button in place, the page after has it in place
    too, and shows the button as before or in one of the allowed states. *)
Definition buttonMove (allowed : ButtonState -> Prop) (p p' : Page) : Prop :=
  buttonContract p ->
  buttonContract p' /\
  (sameButton p p' \/ exists st, allowed st /\ inState st p').

(** The functions, listeners and timer callbacks of the script other than
    showLoading and resetButton and their callers onSubmit and submitForm. *)
Inductive OtherOperation : Type :=
| DoClearErrors
| DoShowErrors (errors : list ValidationError)
| DoValidateSingleField (field : node)
| DoBlur (this : node)
| DoInput (this : node)
| DoRemoveShake (form : option node)
| DoHideSuccess (successMessage : option node)
| DoSetupFormSubmission
| DoSetupRealTimeValidation.

Definition runOther (o : OtherOperation) : M unit :=
  match o with
  | DoClearErrors => clearErrors
  | DoShowErrors errors => showErrors errors
  | DoValidateSingleField field => validateSingleField field
  | DoBlur this => onBlur this
  | DoInput this => onInput this
  | DoRemoveShake form => classList_remove form [lit "shake"]
  | DoHideSuccess successMessage => classList_add successMessage [lit "hidden"]
  | DoSetupFormSubmission => setupFormSubmission
  | DoSetupRealTimeValidation => setupRealTimeValidation
  end.

(** The field is in the invalid visual state. *)
Definition markedInvalid (e : Element) : Prop :=
  lit "border-red-500" ∈ classList e \/ lit "bg-red-50" ∈ classList e.

(** The blur contract as the specification words it: a blur-time
    validation without error leaves the field unmarked and its adjacent
    inline error message hidden. *)
Definition blurClearsInvalidState (p : Page) (n : node) : Prop :=
  forall e, doc p !! n = Some e ->
    validateField (el_name e) (trim (value e)) = None ->
    (forall e', doc (exec (onBlur n) p) !! n = Some e' -> ~ markedInvalid e') /\
    (forall s d', nextElementSibling e = Some s ->
                  doc (exec (onBlur n) p) !! s = Some d' ->
                  errorClass d' -> lit "hidden" ∈ classList d').

(** The Loading label as the specification spells it, with the single
    character U+2026 where the script has three full stops. *)
Definition ellipsisLabel : jsstring := lit "Sending" ++ [8230%N].

(** *** Sample pages *)

Definition sampleField (owner : option node) (name : string) (v : jsstring)
    (classes : list jsstring) (next : option node) : Element :=
  mkElement (lit "input") (lit name) (lit name) v [] owner classes [] [] false []
            next None.

Definition sampleErrorDiv (classes : list jsstring) (text : jsstring) : Element :=
  mkElement (lit "div") [] [] [] [] None classes text [] false [] None None.

Definition sampleElement (tag id : string) (classes : list jsstring) (text : jsstring)
    (icon : option node) : Element :=
  mkElement (lit tag) (lit id) [] [] [] None classes text [] false [] None icon.

(** A page with the elements of the DOM contract: the form, its four
    fields each followed by an inline error message, the summary, the
    success message and the submit button with its label and icon. *)
Definition samplePage (name email subject message : jsstring) : Page :=
  mkPage
    [ sampleElement "form" "contact-form" [] [] None;
      sampleField (Some 0) "name" name [lit "border-gray-300"] (Some 2);
      sampleErrorDiv [lit "error-message"; lit "hidden"] [];
      sampleField (Some 0) "email" email [lit "border-gray-300"] (Some 4);
      sampleErrorDiv [lit "error-message"; lit "hidden"] [];
      sampleField (Some 0) "subject" subject [lit "border-gray-300"] (Some 6);
      sampleErrorDiv [lit "error-message"; lit "hidden"] [];
      sampleField (Some 0) "message" message [lit "border-gray-300"] (Some 8);
      sampleErrorDiv [lit "error-message"; lit "hidden"] [];
      sampleElement "div" "error-message" [lit "hidden"] [] None;
      sampleElement "ul" "error-list" [] [] None;
      sampleElement "div" "success-message" [lit "hidden"] [] None;
      sampleElement "button" "submit-btn" [] [] (Some 14);
      sampleElement "span" "btn-text" [] (lit "Launch Message") None;
      sampleElement "i" "" [] [] None ]
    [] [].

(** A name field still marked invalid although its value is valid, with
    its inline error message showing. *)
Definition markedPage : Page :=
  mkPage
    [ sampleField None "name" (lit "Al") [lit "border-red-500"; lit "bg-red-50"] (Some 1);
      sampleErrorDiv [lit "error-message"] (lit "Name must be at least 2 characters") ]
    [] [].

(** The page after differs from the page before at most in the elements
    at the [touched] nodes: no element is added, every other element,
    the timers and the listeners are as they were. *)
Definition localTo (touched : node -> Prop) (p p' : Page) : Prop :=
  length (doc p') = length (doc p) /\
  (forall k, ~ touched k -> doc p' !! k = doc p !! k) /\
  timers p' = timers p /\ listeners p' = listeners p.

(** The nodes a blur or input listener on [field] may write to: the field
    and its next element sibling. *)
Definition fieldAndSibling (field : node) (e : Element) (k : node) : Prop :=
  k = field \/ nextElementSibling e = Some k.

(** The element holds the same value (what the user typed). *)
Definition valueKept (e e' : Element) : Prop := value e' = value e.

(** Every structural link of the page points to an element of the page. *)
Definition linked (p : Page) : Prop :=
  forall n e, doc p !! n = Some e ->
    (forall s, nextElementSibling e = Some s -> s < length (doc p)) /\
    (forall i, querySelector_i e = Some i -> i < length (doc p)).

(** The statement runs to its end, without throwing. *)
Definition completes {A} (m : M A) (p : Page) : Prop :=
  exists a, fst (m p) = Normal a.

(** The field shows no error: no error border or background, the neutral
    border in place. *)
Definition unmarked (e : Element) : Prop :=
  (lit "border-red-500" ∉ classList e) /\ (lit "bg-red-50" ∉ classList e) /\
  lit "border-gray-300" ∈ classList e.

(** An inline error message is hidden; other elements are not concerned. *)
Definition hiddenIfError (e : Element) : Prop :=
  errorClass e -> lit "hidden" ∈ classList e.

(** What clearing never undoes: an element is kept, stays unmarked once
    unmarked and stays hidden once hidden. *)
Record clearedOn (e e' : Element) : Prop := {
  co_kept : kept e e';
  co_unmarked : unmarked e -> unmarked e';
  co_hidden : lit "hidden" ∈ classList e -> lit "hidden" ∈ classList e'
}.

(* ===================================================================== *)
(** ** Strings: trimming *)
(* ===================================================================== *)

Lemma trimStart_nil_iff s : trimStart s = [] <-> forallb is_ws s = true.
Proof.
  induction s as [|c s IH]; simpl; [tauto|].
  destruct (is_ws c); simpl; [exact IH|]. split; discriminate.
Qed.

Lemma trimStart_head s c t : trimStart s = c :: t -> is_ws c = false.
Proof.
  induction s as [|a s IH]; simpl; [discriminate|].
  destruct (is_ws a) eqn:Ha; [exact IH|]. intros [= -> _]. exact Ha.
Qed.

Lemma forallb_rev {A} (f : A -> bool) l : forallb f (rev l) = forallb f l.
Proof.
  induction l as [|a l IH]; simpl; [reflexivity|].
  rewrite forallb_app, IH. simpl. rewrite andb_true_r. apply andb_comm.
Qed.

Lemma trimEnd_nil_iff s : trimEnd s = [] <-> forallb is_ws s = true.
Proof.
  unfold trimEnd. rewrite <- (forallb_rev is_ws s), <- trimStart_nil_iff.
  split; intros H.
  - apply (f_equal (@rev N)) in H. rewrite rev_involutive in H. exact H.
  - rewrite H. reflexivity.
Qed.

(** A value trims to the empty string exactly when it is made of white
    space only. *)
Lemma trim_nil_iff s : trim s = [] <-> forallb is_ws s = true.
Proof.
  unfold trim. rewrite trimEnd_nil_iff. split; intros H.
  - apply trimStart_nil_iff. destruct (trimStart s) as [|c t] eqn:E; [reflexivity|].
    apply trimStart_head in E. simpl in H. rewrite E in H. discriminate.
  - apply trimStart_nil_iff in H. rewrite H. reflexivity.
Qed.

(* ===================================================================== *)
(** ** Regular expressions: the matcher decides the language *)
(* ===================================================================== *)

Lemma nullable_matches r : nullable r = true <-> matches r [].
Proof.
  induction r; simpl.
  - split; [discriminate | inversion 1].
  - split; [constructor | reflexivity].
  - split; [discriminate | inversion 1].
  - split; [discriminate | inversion 1].
  - rewrite andb_true_iff, IHr1, IHr2. split.
    + intros [H1 H2]. apply (MCat _ _ [] [] H1 H2).
    + inversion 1 as [| | |? ? s1 s2 H1 H2 E1 E2| | | |]; subst.
      apply app_eq_nil in E2 as [-> ->]. tauto.
  - rewrite orb_true_iff, IHr1, IHr2. split.
    + intros [H|H]; [apply MAltL | apply MAltR]; exact H.
    + inversion 1; subst; tauto.
  - split; [constructor | reflexivity].
Qed.

(** A non-empty match of [Star r] starts with a non-empty match of [r]. *)
Lemma star_cons_inv r c s :
  matches (Star r) (c :: s) ->
  exists s1 s2, s = s1 ++ s2 /\ matches r (c :: s1) /\ matches (Star r) s2.
Proof.
  intros H. remember (Star r) as r' eqn:Er. remember (c :: s) as w eqn:Ew.
  revert c s Ew. induction H as [| | | | | | |r0 s1 s2 H1 _ H2 IH2]; try discriminate.
  injection Er as ->. intros c s Ew.
  destruct s1 as [|a s1]; simpl in Ew.
  - apply IH2; [reflexivity | exact Ew].
  - injection Ew as -> <-. exists s1, s2. auto.
Qed.

Lemma deriv_matches c r s : matches (deriv c r) s <-> matches r (c :: s).
Proof.
  revert s. induction r as [| |c'|neg atoms|r1 IH1 r2 IH2|r1 IH1 r2 IH2|r1 IH1];
    intros s; simpl.
  - split; inversion 1.
  - split; inversion 1.
  - destruct (N.eqb_spec c c') as [->|Hne].
    + split; inversion 1; subst; constructor.
    + split; inversion 1; subst; congruence.
  - destruct (class_matches neg atoms c) eqn:Hc.
    + split; inversion 1; subst; constructor; exact Hc.
    + split; inversion 1; subst; congruence.
  - assert (Hcat : matches (Cat (deriv c r1) r2) s <->
                   exists s1 s2, s = s1 ++ s2 /\ matches r1 (c :: s1) /\ matches r2 s2).
    { split.
      - inversion 1 as [| | |? ? s1 s2 H1 H2| | | |]; subst.
        exists s1, s2. rewrite <- IH1. auto.
      - intros (s1 & s2 & -> & H1 & H2). constructor; [apply IH1; exact H1 | exact H2]. }
    assert (Hgoal : matches (Cat r1 r2) (c :: s) <->
                    (exists s1 s2, s = s1 ++ s2 /\ matches r1 (c :: s1) /\ matches r2 s2) \/
                    (matches r1 [] /\ matches r2 (c :: s))).
    { split.
      - inversion 1 as [| | |? ? s1 s2 H1 H2 E1 E2| | | |]; subst.
        destruct s1 as [|a s1]; simpl in E2.
        + right. subst. auto.
        + injection E2 as -> <-. left. eauto.
      - intros [(s1 & s2 & -> & H1 & H2) | [H1 H2]].
        + apply (MCat _ _ (c :: s1) s2 H1 H2).
        + apply (MCat _ _ [] (c :: s) H1 H2). }
    rewrite Hgoal. destruct (nullable r1) eqn:Hn.
    + apply nullable_matches in Hn. split.
      * inversion 1; subst; [left; apply Hcat; assumption | right; split; [exact Hn | apply IH2; assumption]].
      * intros [H | [_ H]]; [apply MAltL, Hcat, H | apply MAltR, IH2, H].
    + rewrite Hcat. split; [auto|]. intros [H | [H _]]; [exact H|].
      apply nullable_matches in H. congruence.
  - split.
    + inversion 1; subst; [apply MAltL, IH1 | apply MAltR, IH2]; assumption.
    + inversion 1; subst; [apply MAltL, IH1 | apply MAltR, IH2]; assumption.
  - split.
    + inversion 1 as [| | |? ? s1 s2 H1 H2| | | |]; subst.
      apply (MStarApp _ (c :: s1) s2); [apply IH1; exact H1 | exact H2].
    + intros H. apply star_cons_inv in H as (s1 & s2 & -> & H1 & H2).
      constructor; [apply IH1; exact H1 | exact H2].
Qed.

Lemma test_matches r s : test r s = true <-> matches r s.
Proof.
  revert r. induction s as [|c s IH]; intros r; simpl.
  - apply nullable_matches.
  - rewrite IH. apply deriv_matches.
Qed.

(* ===================================================================== *)
(** ** The e-mail pattern *)
(* ===================================================================== *)

Lemma notSpaceAt_char c : class_matches true [ClassSpace; ClassChar 64%N] c = true <-> plainChar c.
Proof.
  unfold class_matches, plainChar. simpl.
  destruct (is_ws c); simpl; [split; [discriminate | intros [? _]; discriminate]|].
  destruct (N.eqb_spec c 64); simpl; split; try discriminate; try tauto; auto.
Qed.

Lemma star_notSpaceAt s : matches (Star notSpaceAt) s <-> Forall plainChar s.
Proof.
  split.
  - intros H. remember (Star notSpaceAt) as r eqn:Er.
    induction H as [| | | | | | |r0 s1 s2 H1 _ H2 IH2]; try discriminate; [constructor|].
    injection Er as ->. apply Forall_app. split; [|apply IH2; reflexivity].
    inversion H1; subst. constructor; [|constructor]. apply notSpaceAt_char. assumption.
  - induction 1 as [|c s Hc _ IH]; [constructor|].
    apply (MStarApp _ [c] s); [|exact IH].
    constructor. apply notSpaceAt_char. exact Hc.
Qed.

(** [[^\s@]+] matches the non-empty runs of plain characters. *)
Lemma plus_notSpaceAt s :
  matches (Plus notSpaceAt) s <-> s <> [] /\ Forall plainChar s.
Proof.
  unfold Plus. split.
  - inversion 1 as [| | |? ? s1 s2 H1 H2| | | |]; subst.
    inversion H1; subst. split; [discriminate|].
    constructor; [apply notSpaceAt_char; assumption | apply star_notSpaceAt; exact H2].
  - intros [Hne Hall]. destruct s as [|c s]; [congruence|].
    inversion Hall; subst.
    apply (MCat _ _ [c] s); [constructor; apply notSpaceAt_char; assumption|].
    apply star_notSpaceAt. assumption.
Qed.

(** The strings the pattern accepts: local part, [@], domain, a dot and an
    ending, each a non-empty run of plain characters. *)
Lemma isValidEmail_iff email :
  isValidEmail email = true <->
  exists a b c,
    email = a ++ 64%N :: b ++ 46%N :: c /\
    (a <> [] /\ Forall plainChar a) /\
    (b <> [] /\ Forall plainChar b) /\
    (c <> [] /\ Forall plainChar c).
Proof.
  unfold isValidEmail. rewrite test_matches. unfold emailRegex. split.
  - inversion 1 as [| | |? ? a s1 Ha H1| | | |]; subst.
    inversion H1 as [| | |? ? x s2 Hx H2| | | |]; subst.
    inversion Hx; subst.
    inversion H2 as [| | |? ? b s3 Hb H3| | | |]; subst.
    inversion H3 as [| | |? ? y c Hy Hc| | | |]; subst.
    inversion Hy; subst.
    exists a, b, c. rewrite <- !plus_notSpaceAt. auto.
  - intros (a & b & c & -> & Ha & Hb & Hc).
    rewrite <- plus_notSpaceAt in Ha, Hb, Hc.
    apply (MCat _ _ a (64%N :: b ++ 46%N :: c)); [exact Ha|].
    apply (MCat _ _ [64%N] (b ++ 46%N :: c)); [constructor|].
    apply (MCat _ _ b (46%N :: c)); [exact Hb|].
    apply (MCat _ _ [46%N] c); [constructor | exact Hc].
Qed.

Lemma plainChar_not_at s : Forall plainChar s -> ~ In 64%N s.
Proof.
  induction 1 as [|c s [_ Hc] _ IH]; simpl; [tauto|]. intros [E|H]; [congruence | tauto].
Qed.

(** A separator that occurs in neither the prefix nor the suffix of one
    split fixes every split around it. *)
Lemma split_unique {A} (x : A) l1 l2 l1' l2' :
  l1 ++ x :: l2 = l1' ++ x :: l2' -> ~ In x l1' -> ~ In x l2' -> l1 = l1' /\ l2 = l2'.
Proof.
  revert l1'. induction l1 as [|a l1 IH]; intros [|a' l1'] E H1 H2; simpl in *.
  - injection E as ->. auto.
  - injection E as <- _. tauto.
  - injection E as -> <-. exfalso. apply H2, in_or_app. right. left. reflexivity.
  - injection E as -> E. destruct (IH l1' E) as [-> ->]; tauto.
Qed.

(** No [@] at all: the pattern fails. *)
Lemma isValidEmail_no_at email : ~ In 64%N email -> isValidEmail email = false.
Proof.
  intros H. apply not_true_is_false. rewrite isValidEmail_iff.
  intros (a & b & c & -> & _). apply H, in_or_app. right. left. reflexivity.
Qed.

(** An [@] with no dot anywhere after it: the pattern fails. *)
Lemma isValidEmail_no_dot a b :
  ~ In 46%N b -> isValidEmail (a ++ 64%N :: b) = false.
Proof.
  intros H. apply not_true_is_false. rewrite isValidEmail_iff.
  intros (a' & b' & c' & E & [_ Ha] & [_ Hb] & [_ Hc]).
  apply split_unique in E as [_ ->].
  - apply H, in_or_app. right. left. reflexivity.
  - apply plainChar_not_at, Ha.
  - intros Hin. apply in_app_or in Hin as [Hin | [Hin | Hin]].
    + revert Hin. apply plainChar_not_at, Hb.
    + discriminate.
    + revert Hin. apply plainChar_not_at, Hc.
Qed.

Example isValidEmail_sample : isValidEmail (lit "a@b.co") = true.
Proof. reflexivity. Qed.

(* ===================================================================== *)
(** ** The validator *)
(* ===================================================================== *)

(** validateForm runs the single-field rules on the four fields in
    declaration order. *)
Lemma validateForm_fields data :
  validateForm data =
  fieldErrors FName (d_name data) ++ fieldErrors FEmail (d_email data) ++
  fieldErrors FSubject (d_subject data) ++ fieldErrors FMessage (d_message data).
Proof.
  unfold validateForm, fieldErrors, validateField, push.
  destruct (truthy (d_name data)), (length (d_name data) <? 2),
    (truthy (d_email data)), (isValidEmail (d_email data)),
    (truthy (d_subject data)), (length (d_subject data) <? 3),
    (truthy (d_message data)), (length (d_message data) <? 10);
    vm_compute; reflexivity.
Qed.

Lemma fieldKey_inj f g : fieldKey f = fieldKey g -> f = g.
Proof. destruct f, g; intros H; try reflexivity; vm_compute in H; discriminate. Qed.

Lemma errorsFor_app k l1 l2 : errorsFor k (l1 ++ l2) = errorsFor k l1 ++ errorsFor k l2.
Proof. unfold errorsFor. rewrite filter_app, fmap_app. reflexivity. Qed.

Lemma errorsFor_fieldErrors k g v :
  errorsFor k (fieldErrors g v) =
  if decide (k = fieldKey g)
  then match validateField (fieldKey g) v with Some m => [m] | None => [] end
  else [].
Proof.
  unfold fieldErrors, errorsFor.
  destruct (validateField (fieldKey g) v) as [m|]; [|destruct (decide _); reflexivity].
  rewrite filter_cons, filter_nil. simpl.
  destruct (decide (k = fieldKey g)) as [->|Hne].
  - rewrite decide_True by reflexivity. reflexivity.
  - rewrite decide_False by congruence. reflexivity.
Qed.

(** The errors of one field in a validateForm result are the result of the
    single-field rule on that field's value. *)
Lemma errorsFor_validateForm f data :
  errorsFor (fieldKey f) (validateForm data) =
  match validateField (fieldKey f) (fieldValue f data) with Some m => [m] | None => [] end.
Proof.
  rewrite validateForm_fields, !errorsFor_app, !errorsFor_fieldErrors.
  destruct f; simpl fieldValue;
    repeat match goal with
    | |- context [decide (fieldKey ?a = fieldKey ?b)] =>
        first [ rewrite (decide_True (P := fieldKey a = fieldKey b)) by reflexivity
              | rewrite (decide_False (P := fieldKey a = fieldKey b))
                  by (intros E; apply fieldKey_inj in E; discriminate) ]
    end; rewrite ?app_nil_r; reflexivity.
Qed.

Lemma validateField_cases f v m :
  validateField (fieldKey f) v = Some m ->
  (v = [] /\ m = requiredMessage f) \/ (v <> [] /\ m = extraMessage f).
Proof.
  unfold validateField. destruct f; simpl fieldKey;
    repeat match goal with
    | |- context [decide (?a = ?b)] =>
        first [ rewrite (decide_True (P := a = b)) by reflexivity
              | rewrite (decide_False (P := a = b)) by (vm_compute; discriminate) ]
    end;
    destruct v as [|c v]; simpl truthy; simpl negb; cbv iota;
    try (intros [= <-]; left; split; reflexivity);
    match goal with |- context [if ?b then _ else _] => destruct b end;
    try discriminate; intros [= <-]; right; split; try discriminate; reflexivity.
Qed.

Lemma validateField_empty f : validateField (fieldKey f) [] = Some (requiredMessage f).
Proof. destruct f; reflexivity. Qed.

Lemma truthy_length v : truthy v = (0 <? length v).
Proof. destruct v; reflexivity. Qed.

(** The length rules, by the length of the value alone. *)
Lemma validateField_minLength f n v :
  minLength f = Some n ->
  validateField (fieldKey f) v =
  if negb (0 <? length v) then Some (requiredMessage f)
  else if length v <? n then Some (extraMessage f)
  else None.
Proof.
  rewrite <- truthy_length. destruct f; intros [= <-]; reflexivity.
Qed.

Lemma validateField_email v :
  validateField (lit "email") v =
  if negb (truthy v) then Some (lit "Email is required")
  else if negb (isValidEmail v) then Some (lit "Please enter a valid email address")
  else None.
Proof. reflexivity. Qed.

(** C1: for every form record validateForm produces at most one error per
    field (whatever the field key), an error of a field is its required
    message or its length/pattern message, and when the field's trimmed
    value (the record value, built by trimming the raw control value) is
    empty the error is the required message. *)
Theorem validateForm_one_error_per_field (data : FormRecord) :
  (forall k, length (errorsFor k (validateForm data)) <= 1) /\
  (forall f m, In m (errorsFor (fieldKey f) (validateForm data)) ->
               m = requiredMessage f \/ m = extraMessage f) /\
  (forall f, fieldValue f data = [] ->
             errorsFor (fieldKey f) (validateForm data) = [requiredMessage f]) /\
  (forall f raw, data = trimmed raw -> trim (fieldValue f raw) = [] ->
             errorsFor (fieldKey f) (validateForm data) = [requiredMessage f]).
Proof.
  assert (Hreq : forall f, fieldValue f data = [] ->
                   errorsFor (fieldKey f) (validateForm data) = [requiredMessage f]).
  { intros f Hv. rewrite errorsFor_validateForm, Hv, validateField_empty. reflexivity. }
  repeat split.
  - intros k. rewrite validateForm_fields, !errorsFor_app, !errorsFor_fieldErrors.
    assert (Hone : forall g v,
      length (match validateField (fieldKey g) v with Some m => [m] | None => [] end) <= 1).
    { intros g v. destruct (validateField _ _); simpl; lia. }
    rewrite !length_app.
    pose proof (Hone FName (d_name data)). pose proof (Hone FEmail (d_email data)).
    pose proof (Hone FSubject (d_subject data)). pose proof (Hone FMessage (d_message data)).
    repeat match goal with
    | |- context [decide (k = ?x)] => destruct (decide (k = x))
    end; cbn [length];
      try lia;
      match goal with
      | E1 : k = fieldKey ?a, E2 : k = fieldKey ?b |- _ =>
          rewrite E1 in E2; apply fieldKey_inj in E2; discriminate
      end.
  - intros f m. rewrite errorsFor_validateForm.
    destruct (validateField _ _) as [m'|] eqn:E; simpl; [|tauto].
    intros [<-|[]]. apply validateField_cases in E as [[_ ->]|[_ ->]]; auto.
  - exact Hreq.
  - intros f raw -> Hv. apply Hreq. destruct f; exact Hv.
Qed.

Lemma validateForm_one_error_per_field_witness :
  errorsFor (lit "subject")
    (validateForm {| d_name := lit "Al"; d_email := lit "a@b.co";
                     d_subject := []; d_message := lit "1234567890" |})
  = [lit "Subject is required"].
Proof.
  apply (proj1 (proj2 (proj2 (validateForm_one_error_per_field _))) FSubject).
  reflexivity.
Defined.

(** C4: validateForm on the record whose four fields are the empty string
    returns exactly four errors, one per field, in the order name, email,
    subject, message. *)
Theorem validateForm_all_empty :
  validateForm {| d_name := []; d_email := []; d_subject := []; d_message := [] |} =
  [ {| field := lit "name"; message := lit "Name is required" |};
    {| field := lit "email"; message := lit "Email is required" |};
    {| field := lit "subject"; message := lit "Subject is required" |};
    {| field := lit "message"; message := lit "Message is required" |} ].
Proof. reflexivity. Qed.

(** C5: for each of the four fields, a raw value that is empty or made of
    white space only trims to the empty string, and both validation paths
    then give exactly the field's required error for that field. *)
Theorem blank_value_is_required (f : FieldName) (raw : FormRecord) :
  forallb is_ws (fieldValue f raw) = true ->
  trim (fieldValue f raw) = [] /\
  errorsFor (fieldKey f) (validateForm (trimmed raw)) = [requiredMessage f] /\
  validateField (fieldKey f) (trim (fieldValue f raw)) = Some (requiredMessage f).
Proof.
  intros Hws. apply trim_nil_iff in Hws. split; [exact Hws|]. split.
  - rewrite errorsFor_validateForm.
    replace (fieldValue f (trimmed raw)) with (trim (fieldValue f raw)) by (destruct f; reflexivity).
    rewrite Hws, validateField_empty. reflexivity.
  - rewrite Hws. apply validateField_empty.
Qed.

Lemma blank_value_is_required_witness :
  trim (lit "  ") = [] /\
  errorsFor (lit "message")
    (validateForm (trimmed {| d_name := lit "Al"; d_email := lit "a@b.co";
                              d_subject := lit "Hi there"; d_message := lit "  " |}))
  = [lit "Message is required"] /\
  validateField (lit "message") (trim (lit "  ")) = Some (lit "Message is required").
Proof.
  apply (blank_value_is_required FMessage
           {| d_name := lit "Al"; d_email := lit "a@b.co";
              d_subject := lit "Hi there"; d_message := lit "  " |}).
  reflexivity.
Defined.

(** C6: a non-empty e-mail value with no [@], or with an [@] that has no
    dot after it, gets the error "Please enter a valid email address" on
    both validation paths; the value a@b.co gets no e-mail error. *)
Theorem email_format_error (data : FormRecord) :
  (d_email data <> [] ->
   (~ In 64%N (d_email data) \/
    exists a b, d_email data = a ++ 64%N :: b /\ ~ In 46%N b) ->
   errorsFor (lit "email") (validateForm data) = [lit "Please enter a valid email address"] /\
   validateField (lit "email") (d_email data) = Some (lit "Please enter a valid email address")) /\
  (d_email data = lit "a@b.co" ->
   errorsFor (lit "email") (validateForm data) = [] /\
   validateField (lit "email") (d_email data) = None).
Proof.
  pose proof (errorsFor_validateForm FEmail data) as Hf. simpl in Hf.
  change (fieldKey FEmail) with (lit "email") in Hf. rewrite Hf. clear Hf.
  split.
  - intros Hne Hbad.
    assert (Hinv : isValidEmail (d_email data) = false).
    { destruct Hbad as [H | (a & b & -> & H)];
        [apply isValidEmail_no_at | apply isValidEmail_no_dot]; exact H. }
    rewrite validateField_email, Hinv.
    destruct (d_email data); [congruence|]. simpl. auto.
  - intros ->. split; reflexivity.
Qed.

Lemma email_format_error_witness :
  errorsFor (lit "email")
    (validateForm {| d_name := lit "Al"; d_email := lit "a@bco";
                     d_subject := lit "Hi there"; d_message := lit "1234567890" |})
  = [lit "Please enter a valid email address"] /\
  errorsFor (lit "email")
    (validateForm {| d_name := lit "Al"; d_email := lit "a@b.co";
                     d_subject := lit "Hi there"; d_message := lit "1234567890" |})
  = [].
Proof.
  split.
  - apply (proj1 (email_format_error
             {| d_name := lit "Al"; d_email := lit "a@bco";
                d_subject := lit "Hi there"; d_message := lit "1234567890" |})).
    + discriminate.
    + right. exists (lit "a"), (lit "bco"). split; [reflexivity|].
      vm_compute. intuition discriminate.
  - apply (proj2 (email_format_error
             {| d_name := lit "Al"; d_email := lit "a@b.co";
                d_subject := lit "Hi there"; d_message := lit "1234567890" |})).
    reflexivity.
Defined.

(** C7: for name, subject and message, with minimum lengths 2, 3 and 10, a
    value one shorter than the minimum (and not empty) gets the field's
    length error, and a value of exactly the minimum length gets no error
    for that field. *)
Theorem length_rule_boundary (f : FieldName) (n : nat) (data : FormRecord) :
  minLength f = Some n ->
  (fieldValue f data <> [] -> length (fieldValue f data) = n - 1 ->
   errorsFor (fieldKey f) (validateForm data) = [extraMessage f]) /\
  (length (fieldValue f data) = n ->
   errorsFor (fieldKey f) (validateForm data) = []).
Proof.
  intros Hmin. rewrite errorsFor_validateForm, (validateField_minLength f n _ Hmin).
  assert (Hn : 2 <= n) by (destruct f; injection Hmin as <- || discriminate; lia).
  split.
  - intros Hne Hlen.
    assert (0 < length (fieldValue f data)) by (destruct (fieldValue f data); [congruence | simpl; lia]).
    destruct (Nat.ltb_spec 0 (length (fieldValue f data))); [|lia]. simpl.
    destruct (Nat.ltb_spec (length (fieldValue f data)) n); [reflexivity | lia].
  - intros Hlen. rewrite Hlen.
    destruct (Nat.ltb_spec 0 n); [|lia]. simpl.
    destruct (Nat.ltb_spec n n); [lia | reflexivity].
Qed.

Lemma length_rule_boundary_witness :
  errorsFor (lit "message")
    (validateForm {| d_name := lit "Al"; d_email := lit "a@b.co";
                     d_subject := lit "Hi there"; d_message := lit "123456789" |})
  = [lit "Message must be at least 10 characters"] /\
  errorsFor (lit "message")
    (validateForm {| d_name := lit "Al"; d_email := lit "a@b.co";
                     d_subject := lit "Hi there"; d_message := lit "1234567890" |})
  = [].
Proof.
  split.
  - apply (proj1 (length_rule_boundary FMessage 10
             {| d_name := lit "Al"; d_email := lit "a@b.co";
                d_subject := lit "Hi there"; d_message := lit "123456789" |} eq_refl));
      [discriminate | reflexivity].
  - apply (proj2 (length_rule_boundary FMessage 10
             {| d_name := lit "Al"; d_email := lit "a@b.co";
                d_subject := lit "Hi there"; d_message := lit "1234567890" |} eq_refl)).
    reflexivity.
Defined.

(** C8: for each of the four field names and every value, the single-field
    validator returns an error exactly when validateForm, on a record whose
    field of that name has that value, produces an error for that field,
    and the messages are equal. *)
Theorem validateField_agrees_with_validateForm (f : FieldName) (v : jsstring) (data : FormRecord) :
  errorsFor (fieldKey f) (validateForm (setField f v data)) =
  match validateField (fieldKey f) v with
  | Some m => [m]
  | None => []
  end.
Proof.
  rewrite errorsFor_validateForm. destruct f; reflexivity.
Qed.

(* ===================================================================== *)
(** ** Frames *)
(* ===================================================================== *)

Global Instance buttonKept_refl : Reflexive buttonKept.
Proof. intros e. split; tauto. Qed.

Global Instance buttonKept_trans : Transitive buttonKept.
Proof.
  intros e1 e2 e3 [I1 D1 C1 T1] [I2 D2 C2 T2]. split.
  - congruence.
  - congruence.
  - tauto.
  - intros Hid H. rewrite T2, T1; try tauto. congruence.
Qed.

Global Instance kept_refl : Reflexive kept.
Proof. intros e. split; reflexivity. Qed.

Global Instance kept_trans : Transitive kept.
Proof.
  intros e1 e2 e3 [] []. split; [etransitivity; eassumption | congruence ..].
Qed.

Global Instance frame_refl K `{!Reflexive K} : Reflexive (frame K).
Proof. intros p n e H. exists e. split; [exact H | reflexivity]. Qed.

Global Instance frame_trans K `{!Transitive K} : Transitive (frame K).
Proof.
  intros p1 p2 p3 H12 H23 n e H.
  destruct (H12 n e H) as (e2 & H2 & K2). destruct (H23 n e2 H2) as (e3 & H3 & K3).
  exists e3. split; [exact H3 | etransitivity; eassumption].
Qed.

Global Instance quiet_refl : Reflexive quiet.
Proof. intros p. repeat split. reflexivity. Qed.

Global Instance quiet_trans : Transitive quiet.
Proof.
  intros p1 p2 p3 (F1 & S1 & L1) (F2 & S2 & L2).
  repeat split; [etransitivity; eassumption | congruence ..].
Qed.

Lemma frame_mono (K K' : Element -> Element -> Prop) p p' :
  (forall e e', K e e' -> K' e e') -> frame K p p' -> frame K' p p'.
Proof. intros HK H n e Hn. destruct (H n e Hn) as (e' & ? & ?). eauto. Qed.

Lemma quiet_buttonFrame p p' : quiet p p' -> frame buttonKept p p'.
Proof. intros [H _]. revert H. apply frame_mono. intros e e' []. assumption. Qed.

(** *** The monad *)

Lemma exec_bind {A B} (m : M A) (k : A -> M B) p :
  exec (bind m k) p =
  match fst (m p) with
  | Normal a => exec (k a) (exec m p)
  | Throw => exec m p
  end.
Proof. unfold exec, bind. destruct (m p) as [[a|] p']; reflexivity. Qed.

Lemma preserves_ret {A} R `{!Reflexive R} (a : A) : preserves R (ret a).
Proof. intros p. reflexivity. Qed.

Lemma preserves_throw {A} R `{!Reflexive R} : preserves R (@throw A).
Proof. intros p. reflexivity. Qed.

Lemma preserves_bind {A B} R `{!Transitive R} (m : M A) (k : A -> M B) :
  preserves R m -> (forall a, preserves R (k a)) -> preserves R (bind m k).
Proof.
  intros Hm Hk p. rewrite exec_bind. destruct (fst (m p)) as [a|].
  - transitivity (exec m p); [apply Hm | apply Hk].
  - apply Hm.
Qed.

Lemma preserves_forEach {A} R `{!Reflexive R} `{!Transitive R} (l : list A) (f : A -> M unit) :
  (forall x, preserves R (f x)) -> preserves R (forEach l f).
Proof.
  intros Hf. induction l as [|x l IH]; simpl.
  - apply preserves_ret; assumption.
  - apply preserves_bind; [assumption | apply Hf | intros _; exact IH].
Qed.

Lemma preserves_if {A} R (b : bool) (m1 m2 : M A) :
  preserves R m1 -> preserves R m2 -> preserves R (if b then m1 else m2).
Proof. destruct b; auto. Qed.

(** *** The primitives *)

Lemma exec_element r p : exec (element r) p = p.
Proof. unfold exec, element. destruct r as [n|]; [destruct (doc p !! n)|]; reflexivity. Qed.

Lemma element_Normal r e p :
  fst (element r p) = Normal e -> exists n, r = Some n /\ doc p !! n = Some e.
Proof.
  unfold element. destruct r as [n|]; [|discriminate].
  destruct (doc p !! n) as [e'|] eqn:E; [|discriminate].
  intros [= ->]. eauto.
Qed.

Lemma preserves_element R `{!Reflexive R} r : preserves R (element r).
Proof. intros p. rewrite exec_element. reflexivity. Qed.

Lemma preserves_getElementById R `{!Reflexive R} i : preserves R (getElementById i).
Proof. intros p. reflexivity. Qed.

Lemma frame_insert K `{!Reflexive K} p n e e' :
  doc p !! n = Some e -> K e e' -> frame K p (with_doc (<[n := e']> (doc p)) p).
Proof.
  intros Hn HK j x Hj. simpl. destruct (decide (j = n)) as [->|Hne].
  - exists e'. rewrite list_lookup_insert_eq by (eapply lookup_lt_Some; eassumption).
    split; [reflexivity | congruence].
  - exists x. rewrite list_lookup_insert_ne by congruence. split; [exact Hj | reflexivity].
Qed.

(** An update by a function that keeps elements is quiet. *)
Lemma quiet_update r f : (forall e, kept e (f e)) -> preserves quiet (update r f).
Proof.
  intros Hf p. unfold update. rewrite exec_bind.
  destruct (fst (element r p)) as [e|] eqn:E; rewrite exec_element; [|reflexivity].
  apply element_Normal in E as (n & -> & Hn). unfold exec. simpl.
  repeat split. apply (frame_insert kept p n e (f e) Hn (Hf e)).
Qed.

Lemma tokens_add_elem c cl tokens :
  c ∈ tokens_add cl tokens <-> c ∈ cl \/ c ∈ tokens.
Proof.
  unfold tokens_add. revert cl. induction tokens as [|t ts IH]; intros cl; simpl.
  - rewrite elem_of_nil. tauto.
  - rewrite IH, elem_of_cons. destruct (decide (t ∈ cl)) as [Hin|Hin].
    + split; [tauto|]. intros [H|[->|H]]; tauto.
    + rewrite elem_of_app, list_elem_of_singleton. tauto.
Qed.

Lemma tokens_remove_elem c cl tokens :
  c ∈ tokens_remove cl tokens <-> c ∈ cl /\ c ∉ tokens.
Proof.
  unfold tokens_remove. revert cl. induction tokens as [|t ts IH]; intros cl; simpl.
  - rewrite elem_of_nil. tauto.
  - rewrite IH, list_elem_of_filter, elem_of_cons. tauto.
Qed.

Lemma kept_classList cl e :
  (lit "error-message" ∈ cl <-> errorClass e) -> kept e (with_classList cl e).
Proof. intros H. split; try reflexivity. split; try reflexivity. exact H. Qed.

Lemma quiet_classList_add r tokens :
  lit "error-message" ∉ tokens -> preserves quiet (classList_add r tokens).
Proof.
  intros H. apply quiet_update. intros e. apply kept_classList.
  rewrite tokens_add_elem. unfold errorClass. tauto.
Qed.

Lemma quiet_classList_remove r tokens :
  lit "error-message" ∉ tokens -> preserves quiet (classList_remove r tokens).
Proof.
  intros H. apply quiet_update. intros e. apply kept_classList.
  rewrite tokens_remove_elem. unfold errorClass. tauto.
Qed.

Lemma quiet_classList_contains r c : preserves quiet (classList_contains r c).
Proof.
  apply preserves_bind; [apply _ | apply preserves_element; apply _ |].
  intros e. apply preserves_ret; apply _.
Qed.

Lemma quiet_get_nextElementSibling r : preserves quiet (get_nextElementSibling r).
Proof.
  apply preserves_bind; [apply _ | apply preserves_element; apply _ |].
  intros e. apply preserves_ret; apply _.
Qed.

Lemma quiet_querySelector_I r : preserves quiet (querySelector_I r).
Proof.
  apply preserves_bind; [apply _ | apply preserves_element; apply _ |].
  intros e. apply preserves_ret; apply _.
Qed.

Lemma quiet_scrollIntoView r : preserves quiet (scrollIntoView r).
Proof.
  apply preserves_bind; [apply _ | apply preserves_element; apply _ |].
  intros e. apply preserves_ret; apply _.
Qed.

(** Closes [kept e e'] when [e'] is [e] with other fields replaced. *)
Ltac kept_fields :=
  split; [split; simpl; (reflexivity || tauto) | reflexivity ..].

Lemma quiet_setAttribute r k v : preserves quiet (setAttribute r k v).
Proof. apply quiet_update. intros e. kept_fields. Qed.

Lemma quiet_appendChild r c : preserves quiet (appendChild r c).
Proof. apply quiet_update. intros e. destruct c; kept_fields. Qed.

Lemma submissions_app p t :
  submissions (mkPage (doc p) (timers p ++ [t]) (listeners p)) =
  submissions p ++ match fst t with CbSubmitForm d => [d] | _ => [] end.
Proof.
  unfold submissions. simpl. rewrite omap_app. simpl.
  destruct (fst t); reflexivity.
Qed.

Lemma frame_same_doc K `{!Reflexive K} p p' : doc p' = doc p -> frame K p p'.
Proof. intros E n e Hn. exists e. rewrite E. split; [exact Hn | reflexivity]. Qed.

(** A timer that is not a submission is quiet. *)
Lemma quiet_setTimeout cb delay :
  (forall d, cb <> CbSubmitForm d) -> preserves quiet (setTimeout cb delay).
Proof.
  intros H p. unfold exec, setTimeout. simpl.
  split; [apply frame_same_doc; [apply _ | reflexivity]|]. split; [|reflexivity].
  rewrite submissions_app. simpl. destruct cb; rewrite ?app_nil_r; try reflexivity.
  exfalso. eapply H. reflexivity.
Qed.

Lemma quiet_update_at p r f :
  (forall n e, r = Some n -> doc p !! n = Some e -> kept e (f e)) ->
  quiet p (exec (update r f) p).
Proof.
  intros Hf. unfold update. rewrite exec_bind.
  destruct (fst (element r p)) as [e|] eqn:E; rewrite exec_element; [|reflexivity].
  apply element_Normal in E as (n & -> & Hn). unfold exec. simpl.
  repeat split. apply (frame_insert kept p n e (f e) Hn). apply (Hf n e eq_refl Hn).
Qed.

(** *** Running statements step by step *)

Lemma bind_assoc {A B C} (m : M A) (f : A -> M B) (g : B -> M C) p :
  bind (bind m f) g p = bind m (fun a => bind (f a) g) p.
Proof. unfold bind. destruct (m p) as [[a|] p']; reflexivity. Qed.

Lemma bind_ret {A B} (a : A) (k : A -> M B) p : bind (ret a) k p = k a p.
Proof. reflexivity. Qed.

Lemma bind_element {B} r (k : Element -> M B) p :
  bind (element r) k p =
  match deref r p with
  | Some e => k e p
  | None => (Throw, p)
  end.
Proof.
  unfold bind, element, deref. destruct r as [n|]; [|reflexivity].
  destruct (doc p !! n); reflexivity.
Qed.

Lemma bind_update {B} r f (k : unit -> M B) p :
  bind (update r f) k p =
  match r, deref r p with
  | Some n, Some e => k tt (with_doc (<[n := f e]> (doc p)) p)
  | _, _ => (Throw, p)
  end.
Proof.
  unfold update. rewrite bind_assoc, bind_element.
  destruct r as [n|]; simpl; [|reflexivity].
  destruct (doc p !! n); reflexivity.
Qed.

Lemma exec_update r f p :
  exec (update r f) p =
  match r, deref r p with
  | Some n, Some e => with_doc (<[n := f e]> (doc p)) p
  | _, _ => p
  end.
Proof.
  unfold exec, update. rewrite bind_element.
  destruct r as [n|]; simpl; [|reflexivity].
  destruct (doc p !! n); reflexivity.
Qed.

(** Writing the message into an element that is an inline error message,
    as showErrors and validateSingleField do, is quiet. *)
Lemma quiet_error_text (errorDiv : option node) (m : jsstring) :
  preserves quiet
    (let* c := classList_contains errorDiv (lit "error-message") in
     if c then
       set_textContent errorDiv m ;;
       classList_remove errorDiv [lit "hidden"]
     else ret tt).
Proof.
  intros p. unfold exec, classList_contains.
  rewrite bind_assoc, bind_element.
  destruct (deref errorDiv p) as [e|] eqn:E; [|reflexivity].
  rewrite bind_ret.
  destruct (bool_decide (lit "error-message" ∈ classList e)) eqn:Hc; [|reflexivity].
  apply bool_decide_eq_true in Hc.
  change (quiet p (exec (set_textContent errorDiv m ;;
                         classList_remove errorDiv [lit "hidden"]) p)).
  rewrite exec_bind. transitivity (exec (set_textContent errorDiv m) p).
  - apply quiet_update_at. intros n e' -> Hn. simpl in E. rewrite Hn in E. injection E as ->.
    split; try reflexivity. split; try reflexivity. intros _ Hno. exfalso. apply Hno. exact Hc.
  - destruct (fst (set_textContent errorDiv m p)); [|reflexivity].
    apply quiet_classList_remove.
    intros H. apply list_elem_of_singleton in H. vm_compute in H. discriminate.
Qed.

(** A new list item and its text leave the elements of the page alone. *)
Lemma quiet_create_text {B} (tag m : jsstring) (k : option node -> M B) :
  (forall li, preserves quiet (k li)) ->
  preserves quiet (let* li := createElement tag in set_textContent li m ;; k li).
Proof.
  intros Hk p. unfold exec, bind at 1, createElement at 1.
  set (p1 := with_doc (doc p ++ [newElement tag]) p).
  assert (Hnew : doc p1 !! length (doc p) = Some (newElement tag)).
  { unfold p1. simpl. rewrite lookup_app_r by lia. rewrite Nat.sub_diag. reflexivity. }
  unfold set_textContent. rewrite bind_update. unfold deref. rewrite Hnew.
  set (p2 := with_doc _ p1).
  assert (Hq : quiet p p2).
  { unfold p2, p1. simpl. repeat split. intros n e Hn. exists e. split; [|reflexivity].
    simpl. pose proof (lookup_lt_Some _ _ _ Hn).
    rewrite list_lookup_insert_ne by lia. rewrite lookup_app_l by lia. exact Hn. }
  transitivity p2; [exact Hq | apply Hk].
Qed.

(** *** The quiet functions of the script *)

(** A literal class name is not among the literal tokens of a call. *)
Ltac not_token :=
  let H := fresh in
  intros H;
  repeat (apply elem_of_cons in H as [H|H]; [vm_compute in H; discriminate H|]);
  apply elem_of_nil in H; exact H.

Ltac quiet_step :=
  lazymatch goal with
  | |- preserves _ (bind (classList_contains ?r _) (fun c => if c then bind (set_textContent ?r _) _ else _)) =>
      apply quiet_error_text
  | |- preserves _ (bind (createElement _) _) => apply quiet_create_text; intros ?
  | |- preserves _ (bind _ _) => apply preserves_bind; [apply _ | | intros ?]
  | |- preserves _ (forEach _ _) => apply preserves_forEach; [apply _ | apply _ | intros ?]
  | |- preserves _ (ret _) => apply preserves_ret; apply _
  | |- preserves _ (getElementById _) => apply preserves_getElementById; apply _
  | |- preserves _ (classList_add _ _) => apply quiet_classList_add; not_token
  | |- preserves _ (classList_remove _ _) => apply quiet_classList_remove; not_token
  | |- preserves _ (classList_contains _ _) => apply quiet_classList_contains
  | |- preserves _ (get_nextElementSibling _) => apply quiet_get_nextElementSibling
  | |- preserves _ (scrollIntoView _) => apply quiet_scrollIntoView
  | |- preserves _ (appendChild _ _) => apply quiet_appendChild
  | |- preserves _ (setTimeout _ _) => apply quiet_setTimeout; discriminate
  | |- preserves _ (match ?x with Some _ => _ | None => _ end) => destruct x
  | |- preserves _ (if ?b then _ else _) => destruct b
  end.

Lemma find_id_Some i d n :
  find_id i d = Some n <->
  exists e, d !! n = Some e /\ el_id e = i /\
            forall j y, d !! j = Some y -> j < n -> el_id y <> i.
Proof.
  unfold find_id. split.
  - destruct (list_find _ d) as [[n' e]|] eqn:E; [|discriminate].
    intros [= <-]. apply list_find_Some in E. exists e. exact E.
  - intros (e & H1 & H2 & H3).
    rewrite (proj2 (list_find_Some _ d n e)); [reflexivity | auto].
Qed.

(** [innerHTML = ''] on the element of an id other than the label's. *)
Lemma quiet_clear_innerHTML p i :
  i <> lit "btn-text" -> quiet p (exec (clear_innerHTML (find_id i (doc p))) p).
Proof.
  intros Hi. apply quiet_update_at. intros n e Hf Hn.
  apply find_id_Some in Hf as (e' & Hn' & Hid & _).
  rewrite Hn in Hn'. injection Hn' as <-.
  split; try reflexivity. split; try reflexivity.
  intros Hbtn. congruence.
Qed.

Lemma quiet_clearErrors : preserves quiet clearErrors.
Proof. unfold clearErrors. repeat quiet_step. Qed.

Lemma quiet_onInput this : preserves quiet (onInput this).
Proof. unfold onInput. repeat quiet_step. Qed.

Lemma quiet_validateSingleField field : preserves quiet (validateSingleField field).
Proof.
  unfold validateSingleField.
  apply preserves_bind; [apply _ | apply preserves_element; apply _ | intros e].
  destruct (validateField _ _); repeat quiet_step.
Qed.

Lemma quiet_onBlur this : preserves quiet (onBlur this).
Proof. apply quiet_validateSingleField. Qed.

Lemma quiet_showErrors errors : preserves quiet (showErrors errors).
Proof.
  intros p. unfold showErrors, exec.
  unfold bind at 1, getElementById at 1. unfold bind at 1, getElementById at 1.
  match goal with
  | |- quiet p (snd (bind ?m ?k p)) => change (quiet p (exec (bind m k) p))
  end.
  rewrite exec_bind. transitivity (exec (clear_innerHTML (find_id (lit "error-list") (doc p))) p).
  - apply quiet_clear_innerHTML. vm_compute. discriminate.
  - destruct (fst _); [|reflexivity].
    generalize (exec (clear_innerHTML (find_id (lit "error-list") (doc p))) p).
    generalize (find_id (lit "error-list") (doc p)) (find_id (lit "error-message") (doc p)).
    intros errorList errorMessage.
    match goal with |- forall q, quiet q (exec ?m q) => change (preserves quiet m) end.
    repeat quiet_step.
Qed.

Lemma quiet_removeShake form : preserves quiet (classList_remove form [lit "shake"]).
Proof. quiet_step. Qed.

Lemma quiet_hideSuccess successMessage :
  preserves quiet (classList_add successMessage [lit "hidden"]).
Proof. quiet_step. Qed.

(** *** What a frame keeps of the button *)

Lemma frame_find_id K p p' i n :
  (forall e e', K e e' -> el_id e' = el_id e) ->
  frame K p p' -> find_id i (doc p) = Some n -> find_id i (doc p') = Some n.
Proof.
  intros HK HF Hn. apply find_id_Some in Hn as (e & Hn & Hid & Hfirst).
  apply find_id_Some. destruct (HF n e Hn) as (e' & Hn' & Hk).
  exists e'. split; [exact Hn'|]. split; [rewrite (HK _ _ Hk); exact Hid|].
  intros j y Hj Hlt.
  assert (Hj0 : j < length (doc p)) by (apply lookup_lt_Some in Hn; lia).
  apply lookup_lt_is_Some in Hj0 as [x Hx].
  destruct (HF j x Hx) as (x' & Hx' & Hkx). rewrite Hj in Hx'. injection Hx' as ->.
  rewrite (HK _ _ Hkx). eapply Hfirst; eassumption.
Qed.

Lemma frame_buttonDisabled p p' b :
  frame buttonKept p p' -> buttonDisabled p = Some b -> buttonDisabled p' = Some b.
Proof.
  unfold buttonDisabled. intros HF.
  destruct (find_id (lit "submit-btn") (doc p)) as [n|] eqn:Hn; [|discriminate].
  rewrite (frame_find_id buttonKept p p' _ n (fun e e' H => bk_id e e' H) HF Hn).
  destruct (doc p !! n) as [e|] eqn:He; [|discriminate]. simpl. intros [= <-].
  destruct (HF n e He) as (e' & -> & Hk). simpl. f_equal. apply Hk.
Qed.

Lemma frame_labelFree p p' : frame buttonKept p p' -> labelFree p -> labelFree p'.
Proof.
  intros HF (n & e & Hn & He & Hc). destruct (HF n e He) as (e' & He' & Hk).
  exists n, e'. split; [|split; [exact He'|]].
  - exact (frame_find_id buttonKept p p' _ n (fun e e' H => bk_id e e' H) HF Hn).
  - rewrite (bk_errorClass _ _ Hk). exact Hc.
Qed.

Lemma frame_buttonLabel p p' :
  frame buttonKept p p' -> labelFree p -> buttonLabel p' = buttonLabel p.
Proof.
  intros HF (n & e & Hn & He & Hc). unfold buttonLabel.
  rewrite (frame_find_id buttonKept p p' _ n (fun e e' H => bk_id e e' H) HF Hn), Hn, He.
  destruct (HF n e He) as (e' & -> & Hk). simpl. f_equal.
  apply Hk; [|exact Hc]. apply find_id_Some in Hn as (e0 & He0 & Hid & _). congruence.
Qed.

Lemma preserves_weaken {A} (R R' : Page -> Page -> Prop) (m : M A) :
  (forall p p', R p p' -> R' p p') -> preserves R m -> preserves R' m.
Proof. intros HR Hm p. apply HR, Hm. Qed.

Lemma find_id_lookup i d n : find_id i d = Some n -> exists e, d !! n = Some e /\ el_id e = i.
Proof. intros H. apply find_id_Some in H as (e & ? & ? & _). eauto. Qed.

Lemma frame_buttonContract p p' :
  frame buttonKept p p' -> buttonContract p -> buttonContract p'.
Proof.
  intros HF [[n Hn] Hl]. split; [|eapply frame_labelFree; eassumption].
  exists n. exact (frame_find_id buttonKept p p' _ n (fun e e' H => bk_id e e' H) HF Hn).
Qed.

Section Button.

Variable createIcons : M unit.

(** The icon library redraws icons: it keeps ids, disabled flags, the
    inline-error class and the label's text. *)
Hypothesis createIcons_frame : preserves (frame buttonKept) createIcons.

(** What both button functions do after the lookups: flag, label, icon. *)
Lemma set_button_state p (b : bool) (label : jsstring) (rest : option node -> M unit) :
  buttonContract p ->
  (forall icon, preserves (frame buttonKept) (rest icon)) ->
  let p' := exec (let* submitBtn := getElementById (lit "submit-btn") in
                  let* btnText := getElementById (lit "btn-text") in
                  let* icon := querySelector_I submitBtn in
                  set_disabled submitBtn b ;;
                  set_textContent btnText label ;;
                  rest icon) p in
  buttonDisabled p' = Some b /\ buttonLabel p' = Some label /\ buttonContract p'.
Proof.
  intros [[nb Hb] (nt & et & Ht & Het & Hfree)] Hrest.
  destruct (find_id_lookup _ _ _ Hb) as (eb & Heb & Hidb).
  destruct (find_id_lookup _ _ _ Ht) as (et' & Het' & Hidt).
  rewrite Het in Het'. injection Het' as <-.
  assert (Hne : nb <> nt).
  { intros ->. rewrite Heb in Het. injection Het as ->. rewrite Hidb in Hidt.
    vm_compute in Hidt. discriminate. }
  set (p1 := with_doc (<[nb := with_disabled b eb]> (doc p)) p).
  assert (Ht1 : doc p1 !! nt = Some et).
  { unfold p1. simpl. rewrite list_lookup_insert_ne by exact Hne. exact Het. }
  set (p2 := with_doc (<[nt := with_textContent label et]> (doc p1)) p1).
  intros p'.
  assert (Hrun : p' = exec (rest (querySelector_i eb)) p2).
  { unfold p', exec. unfold bind at 1, getElementById at 1. unfold bind at 1, getElementById at 1.
    rewrite Hb, Ht. unfold querySelector_I. rewrite bind_assoc, bind_element. unfold deref.
    rewrite Heb, bind_ret. unfold set_disabled. rewrite bind_update. unfold deref. rewrite Heb.
    fold p1. unfold set_textContent. rewrite bind_update. unfold deref. rewrite Ht1.
    reflexivity. }
  rewrite Hrun. clear Hrun p'.
  assert (Hb2 : doc p2 !! nb = Some (with_disabled b eb)).
  { unfold p2, p1. simpl. rewrite list_lookup_insert_ne by congruence.
    apply list_lookup_insert_eq. eapply lookup_lt_Some; eassumption. }
  assert (Ht2 : doc p2 !! nt = Some (with_textContent label et)).
  { unfold p2. simpl. apply list_lookup_insert_eq. eapply lookup_lt_Some; eassumption. }
  assert (Hids : frame (fun e e' => el_id e' = el_id e) p p2).
  { intros n e Hn. unfold p2, p1. simpl.
    destruct (decide (n = nt)) as [->|Hnt].
    - eexists. rewrite list_lookup_insert_eq
        by (rewrite length_insert; eapply lookup_lt_Some; eassumption).
      split; [reflexivity|]. rewrite Het in Hn. injection Hn as <-. reflexivity.
    - rewrite list_lookup_insert_ne by congruence.
      destruct (decide (n = nb)) as [->|Hnb].
      + eexists. rewrite list_lookup_insert_eq by (eapply lookup_lt_Some; eassumption).
        split; [reflexivity|]. rewrite Heb in Hn. injection Hn as <-. reflexivity.
      + exists e. rewrite list_lookup_insert_ne by congruence. auto. }
  assert (Hb' : find_id (lit "submit-btn") (doc p2) = Some nb)
    by (eapply (frame_find_id _ p p2); [|exact Hids|exact Hb]; auto).
  assert (Ht' : find_id (lit "btn-text") (doc p2) = Some nt)
    by (eapply (frame_find_id _ p p2); [|exact Hids|exact Ht]; auto).
  assert (Hc2 : buttonContract p2).
  { split; [eauto|]. exists nt, (with_textContent label et). auto. }
  pose proof (Hrest (querySelector_i eb) p2) as HF.
  split; [|split].
  - apply (frame_buttonDisabled p2 _ b HF). unfold buttonDisabled. rewrite Hb', Hb2. reflexivity.
  - rewrite (frame_buttonLabel p2 _ HF (proj2 Hc2)). unfold buttonLabel.
    rewrite Ht', Ht2. reflexivity.
  - exact (frame_buttonContract p2 _ HF Hc2).
Qed.

Lemma frame_icon_rest (icon : option node) (attr : jsstring) (m : M unit) :
  preserves quiet m ->
  preserves (frame buttonKept)
    (setAttribute icon (lit "data-lucide") attr ;; m ;; createIcons).
Proof.
  intros Hm.
  apply preserves_bind; [apply _ | | intros _].
  { eapply preserves_weaken; [apply quiet_buttonFrame | apply quiet_setAttribute]. }
  apply preserves_bind; [apply _ | | intros _].
  { eapply preserves_weaken; [apply quiet_buttonFrame | exact Hm]. }
  exact createIcons_frame.
Qed.

(** Entering Loading. *)
Lemma showLoading_button p :
  buttonContract p ->
  buttonDisabled (exec (showLoading createIcons) p) = Some true /\
  buttonLabel (exec (showLoading createIcons) p) = Some (lit "Sending...") /\
  buttonContract (exec (showLoading createIcons) p).
Proof.
  intros Hc.
  apply (set_button_state p true (lit "Sending...")
           (fun icon => setAttribute icon (lit "data-lucide") (lit "loader-2") ;;
                        classList_add icon [lit "animate-spin"] ;; createIcons) Hc).
  intros icon. apply frame_icon_rest. quiet_step.
Qed.

(** Returning to Idle. *)
Lemma resetButton_button p :
  buttonContract p ->
  buttonDisabled (exec (resetButton createIcons) p) = Some false /\
  buttonLabel (exec (resetButton createIcons) p) = Some (lit "Launch Message") /\
  buttonContract (exec (resetButton createIcons) p).
Proof.
  intros Hc.
  apply (set_button_state p false (lit "Launch Message")
           (fun icon => setAttribute icon (lit "data-lucide") (lit "send") ;;
                        classList_remove icon [lit "animate-spin"] ;; createIcons) Hc).
  intros icon. apply frame_icon_rest. quiet_step.
Qed.

End Button.

(* ===================================================================== *)
(** ** Blur-time validation *)
(* ===================================================================== *)

Lemma validateField_other_name name v :
  (forall f, name <> fieldKey f) -> validateField name v = None.
Proof.
  intros H. unfold validateField.
  rewrite (decide_False (P := name = lit "name")) by apply (H FName).
  rewrite (decide_False (P := name = lit "email")) by apply (H FEmail).
  rewrite (decide_False (P := name = lit "subject")) by apply (H FSubject).
  rewrite (decide_False (P := name = lit "message")) by apply (H FMessage).
  reflexivity.
Qed.

(** Without an error validateSingleField leaves the page as it is. *)
Lemma validateSingleField_no_error p n e :
  doc p !! n = Some e ->
  validateField (el_name e) (trim (value e)) = None ->
  validateSingleField n p = (Normal tt, p).
Proof.
  intros Hn Hv. unfold validateSingleField. rewrite bind_element. unfold deref.
  rewrite Hn, Hv. reflexivity.
Qed.

(** C10: for every element whose name is none of name, email, subject and
    message, the blur-time validation finds no error and leaves the whole
    page, and so the element's classes and its sibling error message, as
    they are. *)
Theorem blur_on_other_element_changes_nothing (p : Page) (n : node) (e : Element) :
  doc p !! n = Some e ->
  (forall f, el_name e <> fieldKey f) ->
  validateField (el_name e) (trim (value e)) = None /\
  validateSingleField n p = (Normal tt, p) /\
  exec (onBlur n) p = p.
Proof.
  intros Hn Hname.
  pose proof (validateField_other_name _ (trim (value e)) Hname) as Hv.
  split; [exact Hv|]. pose proof (validateSingleField_no_error p n e Hn Hv) as Hrun.
  split; [exact Hrun|]. unfold exec, onBlur. rewrite Hrun. reflexivity.
Qed.

Lemma blur_on_other_element_changes_nothing_witness :
  exec (onBlur 0)
    (mkPage [sampleField None "phone" (lit "12") [lit "border-red-500"] None] [] []) =
  mkPage [sampleField None "phone" (lit "12") [lit "border-red-500"] None] [] [].
Proof.
  apply (blur_on_other_element_changes_nothing
           (mkPage [sampleField None "phone" (lit "12") [lit "border-red-500"] None] [] [])
           0 (sampleField None "phone" (lit "12") [lit "border-red-500"] None)).
  - reflexivity.
  - intros f. destruct f; vm_compute; discriminate.
Defined.

(** The blur contract as worded fails on a name field that is still marked
    invalid while holding the valid value "Al": the blur-time validation
    finds no error and the field stays marked. *)
Lemma blur_does_not_clear_invalid_state :
  ~ (forall p n, blurClearsInvalidState p n).
Proof.
  intros H.
  destruct (H markedPage 0 (sampleField None "name" (lit "Al")
              [lit "border-red-500"; lit "bg-red-50"] (Some 1)) eq_refl eq_refl) as [H1 _].
  apply (H1 (sampleField None "name" (lit "Al")
               [lit "border-red-500"; lit "bg-red-50"] (Some 1))).
  - reflexivity.
  - left. apply list_elem_of_here.
Qed.

(** What the input listener does to a field carrying [border-red-500]. *)
Lemma onInput_marked p n e :
  doc p !! n = Some e ->
  lit "border-red-500" ∈ classList e ->
  nextElementSibling e <> Some n ->
  exists e',
    doc (exec (onInput n) p) !! n = Some e' /\
    classList e' = tokens_add (tokens_remove (classList e)
                                 [lit "border-red-500"; lit "bg-red-50"])
                              [lit "border-gray-300"] /\
    forall s d, nextElementSibling e = Some s -> doc p !! s = Some d -> errorClass d ->
      exists d', doc (exec (onInput n) p) !! s = Some d' /\ lit "hidden" ∈ classList d'.
Proof.
  intros Hn Hmark Hself.
  pose proof (lookup_lt_Some _ _ _ Hn) as Hlen.
  set (e1 := with_classList (tokens_remove (classList e)
                [lit "border-red-500"; lit "bg-red-50"]) e).
  set (e2 := with_classList (tokens_add (classList e1) [lit "border-gray-300"]) e1).
  set (p1 := with_doc (<[n := e1]> (doc p)) p).
  set (p2 := with_doc (<[n := e2]> (doc p1)) p1).
  assert (H1 : doc p1 !! n = Some e1) by (apply list_lookup_insert_eq; exact Hlen).
  assert (H2 : doc p2 !! n = Some e2)
    by (apply list_lookup_insert_eq; unfold p1; simpl; rewrite length_insert; exact Hlen).
  assert (Hother : forall s, s <> n -> doc p2 !! s = doc p !! s).
  { intros s Hs. unfold p2, p1. simpl. rewrite !list_lookup_insert_ne by congruence.
    reflexivity. }
  assert (Hrun : exec (onInput n) p =
                 exec (match nextElementSibling e with
                       | Some s =>
                           let* c := classList_contains (Some s) (lit "error-message") in
                           if c then classList_add (Some s) [lit "hidden"] else ret tt
                       | None => ret tt
                       end) p2).
  { unfold exec, onInput, classList_contains at 1.
    rewrite bind_assoc, bind_element. unfold deref. rewrite Hn, bind_ret.
    rewrite (bool_decide_eq_true_2 _ Hmark).
    unfold classList_remove. rewrite bind_update. unfold deref. rewrite Hn. fold e1 p1.
    unfold classList_add at 1. rewrite bind_update. unfold deref. rewrite H1. fold e2 p2.
    unfold get_nextElementSibling. rewrite bind_assoc, bind_element. unfold deref.
    rewrite H2, bind_ret. change (nextElementSibling e2) with (nextElementSibling e).
    destruct (nextElementSibling e); reflexivity. }
  rewrite Hrun. clear Hrun.
  destruct (nextElementSibling e) as [s|] eqn:Hs.
  - assert (Hsn : s <> n) by congruence.
    unfold exec, classList_contains. rewrite bind_assoc, bind_element. unfold deref.
    rewrite (Hother s Hsn).
    destruct (doc p !! s) as [d|] eqn:Hd.
    + rewrite bind_ret. destruct (bool_decide (lit "error-message" ∈ classList d)) eqn:Hc.
      * fold (exec (classList_add (Some s) [lit "hidden"]) p2).
        unfold classList_add. rewrite exec_update. unfold deref. rewrite (Hother s Hsn), Hd.
        cbn [doc with_doc]. exists e2. split; [|split; [reflexivity|]].
        -- rewrite list_lookup_insert_ne by congruence. exact H2.
        -- intros s' d' [= <-] _ _. eexists. split.
           ++ apply list_lookup_insert_eq. apply (lookup_lt_Some (doc p2) s d).
              rewrite (Hother s Hsn). exact Hd.
           ++ cbn [classList with_classList]. apply tokens_add_elem. right.
              apply list_elem_of_here.
      * exists e2. split; [exact H2|]. split; [reflexivity|].
        intros s' d' [= <-] Hd' Herr. rewrite Hd in Hd'. injection Hd' as <-.
        apply bool_decide_eq_false in Hc. contradiction.
    + exists e2. simpl. split; [exact H2|]. split; [reflexivity|].
      intros s' d' [= <-] Hd'. rewrite Hd in Hd'. discriminate.
  - exists e2. split; [exact H2|]. split; [reflexivity|]. intros s d. discriminate.
Qed.

(** C2, as the code has it: for every field, a blur-time validation that
    produces no error leaves the page as it is, so the field's classes and
    its adjacent inline error message stay as they were; the invalid visual
    state is cleared by the input listener, which on a field carrying
    border-red-500 removes the error border and background classes and
    hides the adjacent inline error message. *)
Theorem blur_without_error_changes_nothing (p : Page) (n : node) (e : Element) :
  doc p !! n = Some e ->
  (validateField (el_name e) (trim (value e)) = None ->
   validateSingleField n p = (Normal tt, p) /\ exec (onBlur n) p = p) /\
  (lit "border-red-500" ∈ classList e -> nextElementSibling e <> Some n ->
   exists e',
     doc (exec (onInput n) p) !! n = Some e' /\ ~ markedInvalid e' /\
     forall s d, nextElementSibling e = Some s -> doc p !! s = Some d -> errorClass d ->
       exists d', doc (exec (onInput n) p) !! s = Some d' /\ lit "hidden" ∈ classList d').
Proof.
  intros Hn. split.
  - intros Hv. pose proof (validateSingleField_no_error p n e Hn Hv) as Hrun.
    split; [exact Hrun|]. unfold exec, onBlur. rewrite Hrun. reflexivity.
  - intros Hmark Hself.
    destruct (onInput_marked p n e Hn Hmark Hself) as (e' & He' & Hcl & Hsib).
    exists e'. split; [exact He'|]. split; [|exact Hsib].
    unfold markedInvalid. rewrite Hcl, !tokens_add_elem, !tokens_remove_elem.
    intros [[[_ H]|H]|[[_ H]|H]].
    + apply H. apply list_elem_of_here.
    + apply list_elem_of_singleton in H. vm_compute in H. discriminate.
    + apply H. apply list_elem_of_further, list_elem_of_here.
    + apply list_elem_of_singleton in H. vm_compute in H. discriminate.
Qed.

Lemma blur_without_error_changes_nothing_witness :
  exec (onBlur 0) markedPage = markedPage /\
  exists e',
    doc (exec (onInput 0) markedPage) !! 0 = Some e' /\ ~ markedInvalid e' /\
    exists d', doc (exec (onInput 0) markedPage) !! 1 = Some d' /\
               lit "hidden" ∈ classList d'.
Proof.
  pose proof (blur_without_error_changes_nothing markedPage 0
                (sampleField None "name" (lit "Al")
                   [lit "border-red-500"; lit "bg-red-50"] (Some 1)) eq_refl) as [Hblur Hinput].
  split.
  - apply Hblur. reflexivity.
  - destruct Hinput as (e' & He' & Hun & Hsib).
    + apply list_elem_of_here.
    + discriminate.
    + exists e'. split; [exact He'|]. split; [exact Hun|].
      apply (Hsib 1 (sampleErrorDiv [lit "error-message"]
                       (lit "Name must be at least 2 characters")));
        [reflexivity | reflexivity | apply list_elem_of_here].
Defined.

(* ===================================================================== *)
(** ** Submitting invalid data *)
(* ===================================================================== *)

Lemma get_trim_rawRecord fd raw :
  rawRecord fd = Some raw ->
  get_trim fd (lit "name") = ret (trim (d_name raw)) /\
  get_trim fd (lit "email") = ret (trim (d_email raw)) /\
  get_trim fd (lit "subject") = ret (trim (d_subject raw)) /\
  get_trim fd (lit "message") = ret (trim (d_message raw)).
Proof.
  unfold rawRecord, get_trim.
  destruct (formData_get (lit "name") fd), (formData_get (lit "email") fd),
    (formData_get (lit "subject") fd), (formData_get (lit "message") fd);
    try discriminate.
  intros [= <-]. auto.
Qed.

(** With all four entries there, the submit listener validates the trimmed
    record and branches on the error list. *)
Lemma onSubmit_record createIcons fd raw p :
  rawRecord fd = Some raw ->
  onSubmit createIcons fd p =
  (clearErrors ;;
   if 0 <? length (validateForm (trimmed raw)) then
     showErrors (validateForm (trimmed raw))
   else
     showLoading createIcons ;;
     setTimeout (CbSubmitForm (trimmed raw)) 1500) p.
Proof.
  intros Hraw. destruct (get_trim_rawRecord fd raw Hraw) as (Hn & He & Hs & Hm).
  unfold onSubmit. rewrite Hn, He, Hs, Hm. reflexivity.
Qed.

Lemma onSubmit_invalid createIcons fd raw p :
  rawRecord fd = Some raw ->
  validateForm (trimmed raw) <> [] ->
  onSubmit createIcons fd p = (clearErrors ;; showErrors (validateForm (trimmed raw))) p.
Proof.
  intros Hraw Herr. rewrite (onSubmit_record createIcons fd raw p Hraw).
  destruct (validateForm (trimmed raw)); [congruence | reflexivity].
Qed.

(** C3: when the form record of a submit event has a non-empty error list,
    the submit listener runs clearErrors and showErrors on those errors and
    nothing else: no submission is scheduled, no element's disabled flag
    changes, and the submit button keeps its flag and its label, so the
    Loading state is not entered. *)
Theorem invalid_submit_stops_before_loading
    (createIcons : M unit) (fd : FormData) (raw : FormRecord) (p : Page) :
  rawRecord fd = Some raw ->
  validateForm (trimmed raw) <> [] ->
  onSubmit createIcons fd p = (clearErrors ;; showErrors (validateForm (trimmed raw))) p /\
  submissions (exec (onSubmit createIcons fd) p) = submissions p /\
  (forall n e, doc p !! n = Some e ->
     exists e', doc (exec (onSubmit createIcons fd) p) !! n = Some e' /\
                disabled e' = disabled e) /\
  (forall b, buttonDisabled p = Some b ->
     buttonDisabled (exec (onSubmit createIcons fd) p) = Some b) /\
  (labelFree p -> buttonLabel (exec (onSubmit createIcons fd) p) = buttonLabel p).
Proof.
  intros Hraw Herr. pose proof (onSubmit_invalid createIcons fd raw p Hraw Herr) as Hrun.
  split; [exact Hrun|].
  assert (Hq : quiet p (exec (onSubmit createIcons fd) p)).
  { unfold exec. rewrite Hrun.
    apply (preserves_bind quiet clearErrors (fun _ => showErrors (validateForm (trimmed raw))));
      [apply quiet_clearErrors | intros _; apply quiet_showErrors]. }
  pose proof (quiet_buttonFrame _ _ Hq) as HF.
  destruct Hq as (Hk & Hsub & _).
  split; [exact Hsub|]. split; [|split].
  - intros n e Hn. destruct (Hk n e Hn) as (e' & He' & Hkept).
    exists e'. split; [exact He'|]. apply Hkept.
  - intros b. apply frame_buttonDisabled. exact HF.
  - apply frame_buttonLabel. exact HF.
Qed.

Lemma invalid_submit_stops_before_loading_witness :
  submissions (exec (onSubmit (ret tt)
                       [(lit "name", lit " A "); (lit "email", lit "a@b.co");
                        (lit "subject", lit "Hi there"); (lit "message", lit "1234567890")])
                    (samplePage (lit " A ") (lit "a@b.co") (lit "Hi there") (lit "1234567890")))
  = [] /\
  buttonDisabled (exec (onSubmit (ret tt)
                       [(lit "name", lit " A "); (lit "email", lit "a@b.co");
                        (lit "subject", lit "Hi there"); (lit "message", lit "1234567890")])
                    (samplePage (lit " A ") (lit "a@b.co") (lit "Hi there") (lit "1234567890")))
  = Some false.
Proof.
  pose proof (invalid_submit_stops_before_loading (ret tt)
                [(lit "name", lit " A "); (lit "email", lit "a@b.co");
                 (lit "subject", lit "Hi there"); (lit "message", lit "1234567890")]
                {| d_name := lit " A "; d_email := lit "a@b.co";
                   d_subject := lit "Hi there"; d_message := lit "1234567890" |}
                (samplePage (lit " A ") (lit "a@b.co") (lit "Hi there") (lit "1234567890"))
                eq_refl) as H.
  destruct H as (_ & Hsub & _ & Hdis & _).
  - vm_compute. discriminate.
  - split; [exact Hsub | apply Hdis; reflexivity].
Defined.

(* ===================================================================== *)
(** ** The submit button *)
(* ===================================================================== *)

Global Instance buttonMove_refl allowed : Reflexive (buttonMove allowed).
Proof. intros p Hc. split; [exact Hc|]. left. split; reflexivity. Qed.

Global Instance buttonMove_trans allowed : Transitive (buttonMove allowed).
Proof.
  intros p1 p2 p3 H12 H23 Hc1.
  destruct (H12 Hc1) as [Hc2 H2]. destruct (H23 Hc2) as [Hc3 H3].
  split; [exact Hc3|].
  destruct H3 as [[Hd3 Hl3] | H3]; [|right; exact H3].
  destruct H2 as [[Hd2 Hl2] | (st & Hst & H2)].
  - left. split; congruence.
  - right. exists st. split; [exact Hst|].
    destruct st; destruct H2 as [Hd Hl]; split; congruence.
Qed.

Lemma buttonMove_mono (a a' : ButtonState -> Prop) p p' :
  (forall st, a st -> a' st) -> buttonMove a p p' -> buttonMove a' p p'.
Proof.
  intros Ha H Hc. destruct (H Hc) as [Hc' [Hs | (st & Hst & Hin)]].
  - split; [exact Hc' | left; exact Hs].
  - split; [exact Hc' | right; exists st; auto].
Qed.

(** Under a frame the button shows what it showed. *)
Lemma frame_sameButton p p' :
  frame buttonKept p p' -> buttonContract p -> buttonContract p' /\ sameButton p p'.
Proof.
  intros HF Hc. split; [eapply frame_buttonContract; eassumption|].
  destruct Hc as [[n Hn] Hl]. split.
  - destruct (buttonDisabled p) as [b|] eqn:Hb.
    + eapply frame_buttonDisabled; eassumption.
    + unfold buttonDisabled in Hb. rewrite Hn in Hb.
      destruct (find_id_lookup _ _ _ Hn) as (e & He & _). rewrite He in Hb. discriminate.
  - apply frame_buttonLabel; assumption.
Qed.

Lemma frame_buttonMove allowed p p' : frame buttonKept p p' -> buttonMove allowed p p'.
Proof.
  intros HF Hc. destruct (frame_sameButton p p' HF Hc) as [Hc' Hs].
  split; [exact Hc' | left; exact Hs].
Qed.

Lemma quiet_buttonMove {A} allowed (m : M A) :
  preserves quiet m -> preserves (buttonMove allowed) m.
Proof.
  apply preserves_weaken. intros p p' Hq. apply frame_buttonMove, quiet_buttonFrame, Hq.
Qed.

Lemma quiet_form_reset r : preserves quiet (form_reset r).
Proof.
  intros p. unfold exec, form_reset. rewrite bind_element.
  destruct (deref r p) as [e|]; [|reflexivity].
  destruct (decide (localName e = lit "form")); [|reflexivity].
  simpl. repeat split. intros n x Hn. simpl. rewrite list_lookup_fmap, Hn. simpl.
  eexists. split; [reflexivity|]. destruct (decide (form x = r)); [kept_fields | reflexivity].
Qed.

Lemma preserves_get_trim R `{!Reflexive R} fd k : preserves R (get_trim fd k).
Proof. intros p. unfold exec, get_trim. destruct (formData_get k fd); reflexivity. Qed.

Lemma frame_addEventListener r ev l : preserves (frame buttonKept) (addEventListener r ev l).
Proof.
  intros p. unfold exec, addEventListener. rewrite bind_element.
  destruct (deref r p); [|reflexivity]. destruct r; [|reflexivity].
  apply frame_same_doc; [apply _ | reflexivity].
Qed.

Lemma frame_setupFormSubmission : preserves (frame buttonKept) setupFormSubmission.
Proof.
  apply preserves_bind; [apply _ | apply preserves_getElementById; apply _ |].
  intros r. apply frame_addEventListener.
Qed.

Lemma frame_setupRealTimeValidation : preserves (frame buttonKept) setupRealTimeValidation.
Proof.
  apply preserves_bind; [apply _ | intros p; reflexivity |].
  intros inputs. apply preserves_forEach; [apply _ | apply _ |].
  intros n. apply preserves_bind; [apply _ | apply frame_addEventListener |].
  intros _. apply frame_addEventListener.
Qed.

(** None of the other operations is felt by the button. *)
Lemma frame_runOther o : preserves (frame buttonKept) (runOther o).
Proof.
  destruct o; simpl;
    first [ apply frame_setupFormSubmission
          | apply frame_setupRealTimeValidation
          | eapply preserves_weaken;
            [ apply quiet_buttonFrame
            | first [ apply quiet_clearErrors | apply quiet_showErrors
                    | apply quiet_validateSingleField | apply quiet_onBlur
                    | apply quiet_onInput | apply quiet_removeShake
                    | apply quiet_hideSuccess ] ] ].
Qed.

Section ButtonMachine.

Variable createIcons : M unit.
Hypothesis createIcons_frame : preserves (frame buttonKept) createIcons.

Lemma move_showLoading : preserves (buttonMove (eq Loading)) (showLoading createIcons).
Proof.
  intros p Hc. destruct (showLoading_button createIcons createIcons_frame p Hc) as (Hd & Hl & Hc').
  split; [exact Hc'|]. right. exists Loading. split; [reflexivity | split; assumption].
Qed.

Lemma move_resetButton : preserves (buttonMove (eq Idle)) (resetButton createIcons).
Proof.
  intros p Hc. destruct (resetButton_button createIcons createIcons_frame p Hc) as (Hd & Hl & Hc').
  split; [exact Hc'|]. right. exists Idle. split; [reflexivity | split; assumption].
Qed.

Lemma move_setTimeout allowed cb delay : preserves (buttonMove allowed) (setTimeout cb delay).
Proof.
  intros p. apply frame_buttonMove, frame_same_doc; [apply _ | reflexivity].
Qed.

(** The submit listener moves the button to Loading or not at all. *)
Lemma move_onSubmit fd : preserves (buttonMove (eq Loading)) (onSubmit createIcons fd).
Proof.
  unfold onSubmit.
  apply preserves_bind; [apply _ | apply quiet_buttonMove, quiet_clearErrors | intros _].
  do 4 (apply preserves_bind; [apply _ | apply preserves_get_trim; apply _ | intros ?]).
  apply preserves_if.
  - apply quiet_buttonMove, quiet_showErrors.
  - apply preserves_bind; [apply _ | apply move_showLoading | intros _].
    apply move_setTimeout.
Qed.

(** The submission stub moves the button to Idle or not at all. *)
Lemma move_submitForm data : preserves (buttonMove (eq Idle)) (submitForm createIcons data).
Proof.
  unfold submitForm.
  apply preserves_bind; [apply _ | | intros _].
  { apply preserves_bind; [apply _ | apply preserves_getElementById; apply _ | intros r].
    apply quiet_buttonMove, quiet_form_reset. }
  apply preserves_bind; [apply _ | apply preserves_getElementById; apply _ | intros sm].
  apply preserves_bind; [apply _ | apply quiet_buttonMove; quiet_step | intros _].
  apply preserves_bind; [apply _ | apply quiet_buttonMove; quiet_step | intros _].
  apply preserves_bind; [apply _ | apply move_resetButton | intros _].
  apply preserves_bind; [apply _ | apply quiet_buttonMove, quiet_scrollIntoView | intros _].
  apply move_setTimeout.
Qed.

Lemma move_runListener l this fd :
  preserves (buttonMove (fun _ => True)) (runListener createIcons l this fd).
Proof.
  destruct l; simpl.
  - eapply preserves_weaken; [|apply move_onSubmit].
    intros p p'. apply buttonMove_mono. auto.
  - apply quiet_buttonMove, quiet_onBlur.
  - apply quiet_buttonMove, quiet_onInput.
Qed.

Lemma move_runCallback cb : preserves (buttonMove (fun _ => True)) (runCallback createIcons cb).
Proof.
  destruct cb; simpl.
  - eapply preserves_weaken; [|apply move_submitForm].
    intros p p'. apply buttonMove_mono. auto.
  - apply quiet_buttonMove, quiet_removeShake.
  - apply quiet_buttonMove, quiet_hideSuccess.
Qed.

Lemma move_dispatch ev target fd p :
  buttonMove (fun _ => True) p (dispatch createIcons ev target fd p).
Proof.
  unfold dispatch. generalize (listeners p) as ls. intros ls. revert p.
  induction ls as [|[[n ev'] l] ls IH]; intros p; simpl; [reflexivity|].
  etransitivity; [|apply IH].
  destruct (decide (n = target /\ ev' = ev)); [apply move_runListener | reflexivity].
Qed.

Lemma move_fire k p : buttonMove (fun _ => True) p (fire createIcons k p).
Proof.
  unfold fire. destruct (timers p !! k) as [[cb delay]|]; [|reflexivity].
  etransitivity; [|apply move_runCallback].
  apply frame_buttonMove, frame_same_doc; [apply _ | reflexivity].
Qed.

Lemma move_step e p : buttonMove (fun _ => True) p (step createIcons e p).
Proof. destruct e; [apply move_dispatch | apply move_fire]. Qed.

Lemma move_run es p : buttonMove (fun _ => True) p (run createIcons es p).
Proof.
  unfold run. revert p. induction es as [|e es IH]; intros p; simpl; [reflexivity|].
  etransitivity; [apply move_step | apply IH].
Qed.

End ButtonMachine.

Lemma samplePage_contract n e s m : buttonContract (samplePage n e s m).
Proof.
  split; [exists 12; reflexivity|].
  exists 13, (sampleElement "span" "btn-text" [] (lit "Launch Message") None).
  split; [reflexivity|]. split; [reflexivity|]. unfold errorClass. simpl.
  intros H. apply elem_of_nil in H. exact H.
Qed.

(** On a page with the button in place, entering Loading leaves the label
    "Sending..." with three full stops, which is not the label the
    specification spells with U+2026. *)
Lemma loading_label_is_not_ellipsis :
  ~ (forall createIcons p,
       preserves (frame buttonKept) createIcons -> buttonContract p ->
       buttonDisabled (exec (showLoading createIcons) p) = Some true /\
       buttonLabel (exec (showLoading createIcons) p) = Some ellipsisLabel).
Proof.
  intros H.
  destruct (H (ret tt) (samplePage [] [] [] [])
              (preserves_ret (frame buttonKept) tt)
              (samplePage_contract [] [] [] [])) as [_ Hl].
  vm_compute in Hl. discriminate.
Qed.

(** C9, as the code has it: on a page with the submit button and its label
    in place, showLoading puts the button in the Loading state (disabled,
    label "Sending..." with three full stops), resetButton puts it in the
    Idle state (enabled, label "Launch Message"), and no other operation
    changes the flag or the label: the other functions, listeners and
    callbacks leave both as they are, onSubmit changes them only by
    entering Loading and submitForm only by returning to Idle. So from the
    Idle state every sequence of events leaves the button Idle or Loading,
    and it is disabled exactly when it is Loading. *)
Theorem button_disabled_exactly_while_loading (createIcons : M unit) (p : Page) :
  preserves (frame buttonKept) createIcons ->
  buttonContract p ->
  inState Loading (exec (showLoading createIcons) p) /\
  inState Idle (exec (resetButton createIcons) p) /\
  (forall o, sameButton p (exec (runOther o) p)) /\
  sameButton p (exec (onDOMContentLoaded createIcons) p) /\
  (forall fd, sameButton p (exec (onSubmit createIcons fd) p) \/
              inState Loading (exec (onSubmit createIcons fd) p)) /\
  (forall data, sameButton p (exec (submitForm createIcons data) p) \/
                inState Idle (exec (submitForm createIcons data) p)) /\
  (inState Idle p \/ inState Loading p ->
   forall es,
     (inState Idle (run createIcons es p) \/ inState Loading (run createIcons es p)) /\
     (buttonDisabled (run createIcons es p) = Some true <->
      inState Loading (run createIcons es p))).
Proof.
  intros Hicons Hc.
  split; [|split; [|split; [|split; [|split; [|split]]]]].
  - destruct (showLoading_button createIcons Hicons p Hc) as (Hd & Hl & _). split; assumption.
  - destruct (resetButton_button createIcons Hicons p Hc) as (Hd & Hl & _). split; assumption.
  - intros o. apply (frame_sameButton p _ (frame_runOther o p) Hc).
  - refine (proj2 (frame_sameButton p _ _ Hc)).
    unfold onDOMContentLoaded.
    apply (preserves_bind (frame buttonKept)); [exact Hicons | intros _].
    apply (preserves_bind (frame buttonKept)); [apply frame_setupFormSubmission | intros _].
    apply frame_setupRealTimeValidation.
  - intros fd. destruct (move_onSubmit createIcons Hicons fd p Hc) as [_ [Hs | (st & <- & Hin)]]; auto.
  - intros data.
    destruct (move_submitForm createIcons Hicons data p Hc) as [_ [Hs | (st & <- & Hin)]]; auto.
  - intros Hst es.
    assert (Hafter : inState Idle (run createIcons es p) \/ inState Loading (run createIcons es p)).
    { destruct (move_run createIcons Hicons es p Hc) as [_ [[Hd Hl] | ([] & _ & Hin)]]; auto.
      destruct Hst as [[Hd0 Hl0] | [Hd0 Hl0]]; [left | right]; split; congruence. }
    split; [exact Hafter|]. split.
    + intros Hdis. destruct Hafter as [[Hd _] | Hin]; [congruence | exact Hin].
    + intros [Hd _]. exact Hd.
Qed.

Lemma button_disabled_exactly_while_loading_witness :
  inState Loading
    (exec (showLoading (ret tt))
          (samplePage (lit "Al") (lit "a@b.co") (lit "Hi there") (lit "1234567890"))) /\
  inState Idle
    (exec (resetButton (ret tt))
          (samplePage (lit "Al") (lit "a@b.co") (lit "Hi there") (lit "1234567890"))).
Proof.
  pose proof (button_disabled_exactly_while_loading (ret tt)
                (samplePage (lit "Al") (lit "a@b.co") (lit "Hi there") (lit "1234567890"))
                (preserves_ret (frame buttonKept) tt)
                (samplePage_contract _ _ _ _)) as (Hload & Hidle & _).
  split; [exact Hload | exact Hidle].
Defined.

(* ===================================================================== *)
(** ** Listeners and events *)
(* ===================================================================== *)





(** A blur event on an element of another name, with the script's blur
    listeners registered, leaves the page as it is. *)
Lemma dispatch_blur_other_name createIcons p n e fd :
  (forall n' l, (n', blur, l) ∈ listeners p -> l = OnBlur) ->
  doc p !! n = Some e ->
  (forall f, el_name e <> fieldKey f) ->
  dispatch createIcons blur n fd p = p.
Proof.
  intros Hls Hn Hname. unfold dispatch.
  assert (Hrun : exec (onBlur n) p = p).
  { unfold exec, onBlur.
    rewrite (validateSingleField_no_error p n e Hn (validateField_other_name _ _ Hname)).
    reflexivity. }
  revert Hls. generalize (listeners p) as ls.
  induction ls as [|[[n' ev] l] ls IH]; intros Hls; simpl; [reflexivity|].
  destruct (decide (n' = n /\ ev = blur)) as [[-> ->]|_].
  - rewrite (Hls n l) by left. simpl. rewrite Hrun. apply IH.
    intros n' l' H. apply (Hls n' l'). right. exact H.
  - apply IH. intros n'' l' H. apply (Hls n'' l'). right. exact H.
Qed.

(** A valid submission on the sample page: the button goes to Loading with
    one submission pending, and back to Idle when the timer fires. *)
Example valid_submit_round_trip :
  let fd := [(lit "name", lit " Al "); (lit "email", lit "a@b.co");
             (lit "subject", lit "Hi there"); (lit "message", lit "1234567890")] in
  let p0 := exec (onDOMContentLoaded (ret tt))
                 (samplePage (lit " Al ") (lit "a@b.co") (lit "Hi there") (lit "1234567890")) in
  let p1 := step (ret tt) (Dispatch submit 0 fd) p0 in
  let p2 := step (ret tt) (Fire 0) p1 in
  inState Idle p0 /\
  inState Loading p1 /\ length (submissions p1) = 1 /\
  inState Idle p2 /\ submissions p2 = [].
Proof. vm_compute. repeat split; reflexivity. Qed.

Example validateForm_sample :
  validateForm {| d_name := lit "Al"; d_email := lit "a@b.co";
                  d_subject := lit "Hi there"; d_message := lit "1234567890" |} = [].
Proof. reflexivity. Qed.

(* ===================================================================== *)
(** ** Further properties of the validator *)
(* ===================================================================== *)

Lemma isValidEmail_nonempty v : isValidEmail v = true -> v <> [].
Proof. intros H ->. discriminate. Qed.

Lemma fieldErrors_nil f v : fieldErrors f v = [] <-> validateField (fieldKey f) v = None.
Proof. unfold fieldErrors. destruct (validateField _ _); split; congruence. Qed.

Lemma validateField_length_None f n v :
  minLength f = Some n -> validateField (fieldKey f) v = None <-> n <= length v.
Proof.
  intros Hmin. rewrite (validateField_minLength f n v Hmin).
  assert (Hn : 2 <= n) by (destruct f; injection Hmin as <- || discriminate; lia).
  destruct (Nat.ltb_spec 0 (length v)); simpl.
  - destruct (Nat.ltb_spec (length v) n); split; (congruence || lia).
  - split; [discriminate | lia].
Qed.

Lemma validateField_email_None v :
  validateField (lit "email") v = None <-> isValidEmail v = true.
Proof.
  rewrite validateField_email. split.
  - destruct (truthy v); simpl; [|discriminate].
    destruct (isValidEmail v); simpl; [reflexivity | discriminate].
  - intros H. pose proof (isValidEmail_nonempty v H). rewrite H.
    destruct v; [congruence | reflexivity].
Qed.

(** X1: validateForm returns the empty error list exactly when the name
    has at least 2 code units, the e-mail matches the pattern, the subject
    has at least 3 and the message at least 10. *)
Theorem validateForm_accepts_iff (data : FormRecord) :
  validateForm data = [] <->
  2 <= length (d_name data) /\ isValidEmail (d_email data) = true /\
  3 <= length (d_subject data) /\ 10 <= length (d_message data).
Proof.
  rewrite validateForm_fields.
  rewrite <- (validateField_length_None FName 2 (d_name data) eq_refl).
  rewrite <- (validateField_length_None FSubject 3 (d_subject data) eq_refl).
  rewrite <- (validateField_length_None FMessage 10 (d_message data) eq_refl).
  rewrite <- validateField_email_None.
  change (lit "email") with (fieldKey FEmail).
  rewrite <- !fieldErrors_nil. split.
  - intros H. apply app_eq_nil in H as [H1 H]. apply app_eq_nil in H as [H2 H].
    apply app_eq_nil in H as [H3 H4]. auto.
  - intros (-> & -> & -> & ->). reflexivity.
Qed.

(** X2: the fields of the errors validateForm returns come in declaration
    order, each at most once: they are a sublist of name, email, subject,
    message. *)
Theorem validateForm_errors_in_field_order (data : FormRecord) :
  sublist (field <$> validateForm data)
          [lit "name"; lit "email"; lit "subject"; lit "message"].
Proof.
  rewrite validateForm_fields. unfold fieldErrors.
  destruct (validateField (fieldKey FName) (d_name data)),
    (validateField (fieldKey FEmail) (d_email data)),
    (validateField (fieldKey FSubject) (d_subject data)),
    (validateField (fieldKey FMessage) (d_message data));
    cbn [app fmap list_fmap field];
    repeat first [ apply sublist_nil | apply sublist_skip | apply sublist_cons ].
Qed.

(** X3: for name, subject and message the error of the field depends on
    the length of the value alone: the required message for the empty
    value, the length message below the minimum, no error from the minimum
    on. *)
Theorem length_rule_by_length (f : FieldName) (n : nat) (data : FormRecord) :
  minLength f = Some n ->
  errorsFor (fieldKey f) (validateForm data) =
  if length (fieldValue f data) =? 0 then [requiredMessage f]
  else if length (fieldValue f data) <? n then [extraMessage f]
  else [].
Proof.
  intros Hmin. rewrite errorsFor_validateForm, (validateField_minLength f n _ Hmin).
  destruct (length (fieldValue f data)) as [|k]; [reflexivity|]. simpl.
  destruct (S k <? n); reflexivity.
Qed.

Lemma length_rule_by_length_witness :
  errorsFor (lit "subject")
    (validateForm {| d_name := lit "Al"; d_email := lit "a@b.co";
                     d_subject := lit "Hi"; d_message := lit "1234567890" |})
  = [lit "Subject must be at least 3 characters"].
Proof.
  apply (length_rule_by_length FSubject 3
           {| d_name := lit "Al"; d_email := lit "a@b.co";
              d_subject := lit "Hi"; d_message := lit "1234567890" |}).
  reflexivity.
Defined.

Lemma plainChar_dot : plainChar 46%N.
Proof. split; [reflexivity | discriminate]. Qed.

(** X4: isValidEmail accepts exactly the values made of a non-empty local
    part, one [@] and a domain, all free of white space and further [@],
    where the domain has a dot that is neither its first nor its last code
    unit. *)
Theorem isValidEmail_accepts_exactly (email : jsstring) :
  isValidEmail email = true <->
  exists local domain,
    email = local ++ 64%N :: domain /\
    local <> [] /\ Forall plainChar local /\ Forall plainChar domain /\
    exists i, 0 < i /\ S i < length domain /\ domain !! i = Some 46%N.
Proof.
  rewrite isValidEmail_iff. split.
  - intros (a & b & c & -> & [Ha1 Ha2] & [Hb1 Hb2] & [Hc1 Hc2]).
    exists a, (b ++ 46%N :: c). split; [reflexivity|]. split; [exact Ha1|].
    split; [exact Ha2|]. split.
    + apply Forall_app. split; [exact Hb2|]. constructor; [apply plainChar_dot | exact Hc2].
    + exists (length b). split; [destruct b; [congruence | simpl; lia]|]. split.
      * rewrite length_app. simpl. destruct c; [congruence | simpl; lia].
      * rewrite lookup_app_r by lia. rewrite Nat.sub_diag. reflexivity.
  - intros (a & d & -> & Ha1 & Ha2 & Hd & i & Hi1 & Hi2 & Hi).
    exists a, (take i d), (drop (S i) d).
    rewrite <- (take_drop_middle d i 46%N Hi) in Hd.
    apply Forall_app in Hd as [Hb Hc]. apply Forall_cons in Hc as [_ Hc].
    split; [rewrite (take_drop_middle d i 46%N Hi); reflexivity|].
    split; [auto|]. split; [split; [|exact Hb] | split; [|exact Hc]].
    + intros E. apply (f_equal length) in E. rewrite length_take in E. simpl in E. lia.
    + intros E. apply (f_equal length) in E. rewrite length_drop in E. simpl in E. lia.
Qed.

Lemma plainChar_no_at_count s : Forall plainChar s -> length (filter (fun c => c = 64%N) s) = 0.
Proof.
  induction 1 as [|c s [_ Hc] _ IH]; [reflexivity|].
  rewrite filter_cons, decide_False by exact Hc. exact IH.
Qed.

(** X5: a value isValidEmail accepts holds no white space, exactly one [@]
    and at least five code units. *)
Theorem isValidEmail_necessary (email : jsstring) :
  isValidEmail email = true ->
  Forall (fun c => is_ws c = false) email /\
  length (filter (fun c => c = 64%N) email) = 1 /\
  5 <= length email.
Proof.
  intros H. apply isValidEmail_iff in H as (a & b & c & -> & [Ha1 Ha2] & [Hb1 Hb2] & [Hc1 Hc2]).
  assert (Hws : forall s, Forall plainChar s -> Forall (fun c => is_ws c = false) s).
  { intros s Hs. eapply Forall_impl; [exact Hs|]. intros x [Hx _]. exact Hx. }
  split; [|split].
  - apply Forall_app. split; [auto|]. constructor; [reflexivity|].
    apply Forall_app. split; [auto|]. constructor; [reflexivity | auto].
  - rewrite filter_app, filter_cons, decide_True by reflexivity.
    rewrite filter_app, filter_cons, decide_False by discriminate.
    rewrite length_app. cbn [length]. rewrite length_app.
    rewrite !plainChar_no_at_count by assumption. reflexivity.
  - rewrite length_app. cbn [length]. rewrite length_app. cbn [length].
    destruct a; [congruence|]. destruct b; [congruence|]. destruct c; [congruence|].
    simpl. lia.
Qed.

Lemma isValidEmail_necessary_witness :
  Forall (fun c => is_ws c = false) (lit "a@b.co") /\
  length (filter (fun c => c = 64%N) (lit "a@b.co")) = 1 /\
  5 <= length (lit "a@b.co").
Proof. apply (isValidEmail_necessary (lit "a@b.co")). reflexivity. Defined.

(** *** White space around a value *)

Lemma trimStart_app_ws pre s : forallb is_ws pre = true -> trimStart (pre ++ s) = trimStart s.
Proof.
  induction pre as [|c pre IH]; simpl; [reflexivity|].
  destruct (is_ws c); simpl; [exact IH | discriminate].
Qed.

Lemma trimEnd_app_ws s post : forallb is_ws post = true -> trimEnd (s ++ post) = trimEnd s.
Proof.
  intros H. unfold trimEnd. rewrite rev_app_distr, trimStart_app_ws; [reflexivity|].
  rewrite forallb_rev. exact H.
Qed.

Lemma trimStart_app s t : trimStart s <> [] -> trimStart (s ++ t) = trimStart s ++ t.
Proof.
  induction s as [|c s IH]; simpl; [congruence|].
  destruct (is_ws c); [exact IH | reflexivity].
Qed.

(** White space in front of and behind a value does not change what
    [trim] returns. *)
Lemma trim_padding pre s post :
  forallb is_ws pre = true -> forallb is_ws post = true ->
  trim (pre ++ s ++ post) = trim s.
Proof.
  intros Hpre Hpost. unfold trim. rewrite trimStart_app_ws by exact Hpre.
  destruct (trimStart s) as [|c t] eqn:E.
  - apply trimStart_nil_iff in E.
    assert (Hall : forallb is_ws (s ++ post) = true) by (rewrite forallb_app, E, Hpost; reflexivity).
    apply trimStart_nil_iff in Hall. rewrite Hall. reflexivity.
  - rewrite trimStart_app by (rewrite E; discriminate).
    rewrite E. apply trimEnd_app_ws. exact Hpost.
Qed.

(** X6: white space typed around the values does not change the outcome of
    validation, at submit time or at blur time. *)
Theorem validation_ignores_surrounding_space
    (raw : FormRecord) (f : FieldName) (pre post : jsstring) :
  forallb is_ws pre = true -> forallb is_ws post = true ->
  validateForm (trimmed (setField f (pre ++ fieldValue f raw ++ post) raw)) =
  validateForm (trimmed raw) /\
  validateField (fieldKey f) (trim (pre ++ fieldValue f raw ++ post)) =
  validateField (fieldKey f) (trim (fieldValue f raw)).
Proof.
  intros Hpre Hpost. pose proof (trim_padding pre (fieldValue f raw) post Hpre Hpost) as E.
  split; [|rewrite E; reflexivity].
  f_equal. destruct f; unfold trimmed, setField; simpl in *; rewrite E; reflexivity.
Qed.

Lemma validation_ignores_surrounding_space_witness :
  validateForm (trimmed {| d_name := lit "  Al "; d_email := lit "a@b.co";
                          d_subject := lit "Hi there"; d_message := lit "1234567890" |}) =
  validateForm (trimmed {| d_name := lit "Al"; d_email := lit "a@b.co";
                          d_subject := lit "Hi there"; d_message := lit "1234567890" |}).
Proof.
  apply (validation_ignores_surrounding_space
           {| d_name := lit "Al"; d_email := lit "a@b.co";
              d_subject := lit "Hi there"; d_message := lit "1234567890" |}
           FName (lit "  ") (lit " ")); reflexivity.
Defined.

(* ===================================================================== *)
(** ** The blur and input listeners *)
(* ===================================================================== *)

Global Instance localTo_refl touched : Reflexive (localTo touched).
Proof. intros p. repeat split. Qed.

Global Instance localTo_trans touched : Transitive (localTo touched).
Proof.
  intros p1 p2 p3 (L1 & D1 & T1 & S1) (L2 & D2 & T2 & S2).
  repeat split; try congruence. intros k Hk. rewrite D2, D1 by exact Hk. reflexivity.
Qed.

Lemma local_update touched r f :
  (forall n, r = Some n -> touched n) -> preserves (localTo touched) (update r f).
Proof.
  intros Hr p. rewrite exec_update. destruct r as [n|]; [|reflexivity].
  destruct (deref (Some n) p) as [e|]; [|reflexivity].
  repeat split; cbn [doc with_doc].
  - apply length_insert.
  - intros k Hk. apply list_lookup_insert_ne. intros ->. apply Hk, Hr. reflexivity.
Qed.

Lemma local_classList_contains touched r c : preserves (localTo touched) (classList_contains r c).
Proof.
  apply preserves_bind; [apply _ | apply preserves_element; apply _ |].
  intros e. apply preserves_ret; apply _.
Qed.

(** The messages of the validator are not empty, so [if (error)] holds
    for each of them. *)
Lemma validateField_truthy name v m : validateField name v = Some m -> truthy m = true.
Proof.
  unfold validateField.
  repeat match goal with
  | |- context [decide (name = ?x)] => destruct (decide (name = x))
  | |- context [if ?b then _ else _] => destruct b
  end; intros [= <-]; reflexivity.
Qed.

(** What validateSingleField does when it finds an error, up to the
    sibling: the field gets the error classes and loses the neutral one. *)
Lemma validateSingleField_error_run p field e m :
  doc p !! field = Some e ->
  validateField (el_name e) (trim (value e)) = Some m ->
  exec (validateSingleField field) p =
  exec (match nextElementSibling e with
        | Some s =>
            let* c := classList_contains (Some s) (lit "error-message") in
            if c then
              set_textContent (Some s) m ;;
              classList_remove (Some s) [lit "hidden"]
            else ret tt
        | None => ret tt
        end)
       (with_doc (<[field :=
                    with_classList
                      (tokens_remove
                         (tokens_add (classList e) [lit "border-red-500"; lit "bg-red-50"])
                         [lit "border-gray-300"]) e]> (doc p)) p).
Proof.
  intros Hn Hv. pose proof (lookup_lt_Some _ _ _ Hn) as Hlen.
  set (e1 := with_classList
               (tokens_add (classList e) [lit "border-red-500"; lit "bg-red-50"]) e).
  set (p1 := with_doc (<[field := e1]> (doc p)) p).
  assert (H1 : doc p1 !! field = Some e1) by (apply list_lookup_insert_eq; exact Hlen).
  set (e2 := with_classList (tokens_remove (classList e1) [lit "border-gray-300"]) e1).
  set (p2 := with_doc (<[field := e2]> (doc p1)) p1).
  assert (H2 : doc p2 !! field = Some e2)
    by (apply list_lookup_insert_eq; unfold p1; cbn [doc with_doc];
        rewrite length_insert; exact Hlen).
  assert (E2 : p2 = with_doc (<[field := e2]> (doc p)) p).
  { unfold p2, p1. cbn [doc with_doc]. unfold with_doc. cbn [doc timers listeners].
    rewrite list_insert_insert_eq. reflexivity. }
  change (with_classList _ e) with e2. rewrite <- E2.
  unfold exec, validateSingleField. rewrite bind_element. unfold deref. rewrite Hn, Hv.
  rewrite (validateField_truthy _ _ _ Hv).
  unfold classList_add. rewrite bind_update. unfold deref. rewrite Hn. fold e1 p1.
  unfold classList_remove at 1. rewrite bind_update. unfold deref. rewrite H1. fold e2 p2.
  unfold get_nextElementSibling. rewrite bind_assoc, bind_element. unfold deref.
  rewrite H2, bind_ret. change (nextElementSibling e2) with (nextElementSibling e).
  destruct (nextElementSibling e); reflexivity.
Qed.

(** The part of both listeners that writes to the sibling stays there. *)
Lemma local_sibling_text touched s m :
  touched s ->
  preserves (localTo touched)
    (let* c := classList_contains (Some s) (lit "error-message") in
     if c then
       set_textContent (Some s) m ;;
       classList_remove (Some s) [lit "hidden"]
     else ret tt).
Proof.
  intros Hs. apply preserves_bind; [apply _ | apply local_classList_contains | intros c].
  destruct c; [|apply preserves_ret; apply _].
  apply preserves_bind; [apply _ | | intros _]; apply local_update; intros n [= <-]; exact Hs.
Qed.

(** The write to an inline error message, run on its own. *)
Lemma sibling_text_run q s d m :
  doc q !! s = Some d ->
  exec (let* c := classList_contains (Some s) (lit "error-message") in
        if c then
          set_textContent (Some s) m ;;
          classList_remove (Some s) [lit "hidden"]
        else ret tt) q =
  if bool_decide (errorClass d) then
    with_doc (<[s := with_classList (tokens_remove (classList d) [lit "hidden"])
                       (with_textContent m d)]> (doc q)) q
  else q.
Proof.
  intros Hd. pose proof (lookup_lt_Some _ _ _ Hd) as Hlen.
  unfold exec, classList_contains. rewrite bind_assoc, bind_element. unfold deref.
  rewrite Hd, bind_ret. unfold errorClass.
  destruct (bool_decide (lit "error-message" ∈ classList d)); [|reflexivity].
  unfold set_textContent. rewrite bind_update. unfold deref. rewrite Hd.
  fold (exec (classList_remove (Some s) [lit "hidden"])
             (with_doc (<[s := with_textContent m d]> (doc q)) q)).
  unfold classList_remove. rewrite exec_update. unfold deref. cbn [doc with_doc].
  rewrite list_lookup_insert_eq by exact Hlen.
  unfold with_doc. cbn [doc timers listeners]. rewrite list_insert_insert_eq. reflexivity.
Qed.

(** X7: when the blur-time validation of a field finds an error, the field
    gets the classes border-red-500 and bg-red-50, loses border-gray-300
    and keeps its value; its next sibling, when it is an inline error
    message, gets the message as text and is no longer hidden, and is left
    alone otherwise. *)
Theorem blur_with_error_marks_field (p : Page) (field : node) (e : Element) (m : jsstring) :
  doc p !! field = Some e ->
  validateField (el_name e) (trim (value e)) = Some m ->
  nextElementSibling e <> Some field ->
  (exists e',
     doc (exec (validateSingleField field) p) !! field = Some e' /\
     lit "border-red-500" ∈ classList e' /\ lit "bg-red-50" ∈ classList e' /\
     (lit "border-gray-300" ∉ classList e') /\ value e' = value e) /\
  (forall s d, nextElementSibling e = Some s -> doc p !! s = Some d -> errorClass d ->
     exists d',
       doc (exec (validateSingleField field) p) !! s = Some d' /\
       textContent d' = m /\ (lit "hidden" ∉ classList d') /\ errorClass d') /\
  (forall s d, nextElementSibling e = Some s -> doc p !! s = Some d -> ~ errorClass d ->
     doc (exec (validateSingleField field) p) !! s = Some d).
Proof.
  intros Hn Hv Hself. rewrite (validateSingleField_error_run p field e m Hn Hv).
  pose proof (lookup_lt_Some _ _ _ Hn) as Hlen.
  set (e2 := with_classList _ e). set (p1 := with_doc (<[field := e2]> (doc p)) p).
  assert (H1 : doc p1 !! field = Some e2) by (apply list_lookup_insert_eq; exact Hlen).
  assert (Hother : forall s, s <> field -> doc p1 !! s = doc p !! s).
  { intros s Hs. apply list_lookup_insert_ne. congruence. }
  assert (He2 : lit "border-red-500" ∈ classList e2 /\ lit "bg-red-50" ∈ classList e2 /\
                (lit "border-gray-300" ∉ classList e2) /\ value e2 = value e).
  { unfold e2. cbn [classList with_classList value].
    rewrite !tokens_remove_elem, !tokens_add_elem. repeat split.
    - right. apply list_elem_of_here.
    - not_token.
    - right. apply list_elem_of_further, list_elem_of_here.
    - not_token.
    - intros [_ H]. apply H. apply list_elem_of_here. }
  destruct (nextElementSibling e) as [s|] eqn:Hs.
  - assert (Hsn : s <> field) by congruence.
    destruct (doc p !! s) as [d|] eqn:Hd.
    + rewrite (sibling_text_run p1 s d m) by (rewrite Hother by exact Hsn; exact Hd).
      destruct (bool_decide (errorClass d)) eqn:Hc.
      * apply bool_decide_eq_true in Hc. cbn [doc with_doc]. split; [|split].
        -- exists e2. rewrite list_lookup_insert_ne by congruence. auto.
        -- intros s' d' [= <-] Hd' _. rewrite Hd in Hd'. injection Hd' as <-.
           eexists. split.
           ++ apply list_lookup_insert_eq. apply (lookup_lt_Some (doc p1) s d).
              rewrite Hother by exact Hsn. exact Hd.
           ++ cbn [textContent classList with_classList with_textContent].
              split; [reflexivity|]. unfold errorClass.
              cbn [classList with_classList with_textContent].
              rewrite !tokens_remove_elem. split.
              ** intros [_ H]. apply H. apply list_elem_of_here.
              ** split; [exact Hc | not_token].
        -- intros s' d' [= <-] Hd' Hno. rewrite Hd in Hd'. injection Hd' as <-.
           contradiction.
      * apply bool_decide_eq_false in Hc. split; [|split].
        -- exists e2. auto.
        -- intros s' d' [= <-] Hd' Herr. rewrite Hd in Hd'. injection Hd' as <-.
           contradiction.
        -- intros s' d' [= <-] Hd' _. rewrite Hother by exact Hsn. exact Hd'.
    + assert (Hrun : exec (let* c := classList_contains (Some s) (lit "error-message") in
                           if c then set_textContent (Some s) m ;;
                                     classList_remove (Some s) [lit "hidden"]
                           else ret tt) p1 = p1).
      { unfold exec, classList_contains. rewrite bind_assoc, bind_element. unfold deref.
        rewrite Hother by exact Hsn. rewrite Hd. reflexivity. }
      rewrite Hrun. split; [|split].
      * exists e2. auto.
      * intros s' d' [= <-] Hd'. rewrite Hd in Hd'. discriminate.
      * intros s' d' [= <-] Hd'. rewrite Hd in Hd'. discriminate.
  - unfold exec. cbn [ret snd]. split; [|split].
    + exists e2. auto.
    + intros s d. discriminate.
    + intros s d. discriminate.
Qed.

Lemma blur_with_error_marks_field_witness :
  exists e',
    doc (exec (validateSingleField 1) (samplePage (lit "A") [] [] [])) !! 1 = Some e' /\
    lit "border-red-500" ∈ classList e' /\ lit "bg-red-50" ∈ classList e' /\
    (lit "border-gray-300" ∉ classList e') /\ value e' = lit "A".
Proof.
  apply (blur_with_error_marks_field (samplePage (lit "A") [] [] []) 1
           (sampleField (Some 0) "name" (lit "A") [lit "border-gray-300"] (Some 2))
           (lit "Name must be at least 2 characters")).
  - reflexivity.
  - reflexivity.
  - discriminate.
Defined.

(** What the input listener does, up to the sibling. *)
Lemma onInput_run p n e :
  doc p !! n = Some e ->
  exec (onInput n) p =
  if bool_decide (lit "border-red-500" ∈ classList e) then
    exec (match nextElementSibling e with
          | Some s =>
              let* c := classList_contains (Some s) (lit "error-message") in
              if c then classList_add (Some s) [lit "hidden"] else ret tt
          | None => ret tt
          end)
         (with_doc (<[n :=
                      with_classList
                        (tokens_add
                           (tokens_remove (classList e)
                              [lit "border-red-500"; lit "bg-red-50"])
                           [lit "border-gray-300"]) e]> (doc p)) p)
  else p.
Proof.
  intros Hn. pose proof (lookup_lt_Some _ _ _ Hn) as Hlen.
  unfold exec at 1. unfold onInput, classList_contains at 1.
  rewrite bind_assoc, bind_element. unfold deref. rewrite Hn, bind_ret.
  destruct (bool_decide (lit "border-red-500" ∈ classList e)); [|reflexivity].
  set (e1 := with_classList (tokens_remove (classList e)
                [lit "border-red-500"; lit "bg-red-50"]) e).
  set (p1 := with_doc (<[n := e1]> (doc p)) p).
  assert (H1 : doc p1 !! n = Some e1) by (apply list_lookup_insert_eq; exact Hlen).
  set (e2 := with_classList (tokens_add (classList e1) [lit "border-gray-300"]) e1).
  set (p2 := with_doc (<[n := e2]> (doc p1)) p1).
  assert (H2 : doc p2 !! n = Some e2)
    by (apply list_lookup_insert_eq; unfold p1; cbn [doc with_doc];
        rewrite length_insert; exact Hlen).
  assert (E2 : p2 = with_doc (<[n := e2]> (doc p)) p).
  { unfold p2, p1. cbn [doc with_doc]. unfold with_doc. cbn [doc timers listeners].
    rewrite list_insert_insert_eq. reflexivity. }
  change (with_classList (tokens_add _ _) e) with e2. rewrite <- E2.
  unfold classList_remove. rewrite bind_update. unfold deref. rewrite Hn. fold e1 p1.
  unfold classList_add at 1. rewrite bind_update. unfold deref. rewrite H1. fold e2 p2.
  unfold get_nextElementSibling. rewrite bind_assoc, bind_element. unfold deref.
  rewrite H2, bind_ret. change (nextElementSibling e2) with (nextElementSibling e).
  destruct (nextElementSibling e); reflexivity.
Qed.

Lemma local_insert touched p n e' :
  touched n -> localTo touched p (with_doc (<[n := e']> (doc p)) p).
Proof.
  intros Hn. repeat split; cbn [doc with_doc].
  - apply length_insert.
  - intros k Hk. apply list_lookup_insert_ne. intros ->. exact (Hk Hn).
Qed.

(** X8: the blur and the input listener of a field write to that field
    and to its next sibling only: no element is added, every other element
    is as before, and so are the timers and the listeners. *)
Theorem field_listeners_are_local (p : Page) (field : node) (e : Element) :
  doc p !! field = Some e ->
  localTo (fieldAndSibling field e) p (exec (onBlur field) p) /\
  localTo (fieldAndSibling field e) p (exec (onInput field) p).
Proof.
  intros Hn. split.
  - unfold onBlur. destruct (validateField (el_name e) (trim (value e))) as [m|] eqn:Hv.
    + rewrite (validateSingleField_error_run p field e m Hn Hv).
      match goal with
      | |- localTo _ p (exec _ ?q) => transitivity q; [apply local_insert; left; reflexivity|]
      end.
      destruct (nextElementSibling e) as [s|] eqn:Hs.
      * apply local_sibling_text. right. exact Hs.
      * reflexivity.
    + unfold exec. rewrite (validateSingleField_no_error p field e Hn Hv). reflexivity.
  - rewrite (onInput_run p field e Hn).
    destruct (bool_decide _); [|reflexivity].
    match goal with
    | |- localTo _ p (exec _ ?q) => transitivity q; [apply local_insert; left; reflexivity|]
    end.
    destruct (nextElementSibling e) as [s|] eqn:Hs; [|reflexivity].
    apply preserves_bind; [apply _ | apply local_classList_contains | intros c].
    destruct c; [|apply preserves_ret; apply _].
    apply local_update. intros k [= <-]. right. exact Hs.
Qed.

Lemma field_listeners_are_local_witness :
  localTo (fieldAndSibling 1
             (sampleField (Some 0) "name" (lit "A") [lit "border-gray-300"] (Some 2)))
          (samplePage (lit "A") [] [] [])
          (exec (onBlur 1) (samplePage (lit "A") [] [] [])).
Proof.
  apply (field_listeners_are_local (samplePage (lit "A") [] [] []) 1
           (sampleField (Some 0) "name" (lit "A") [lit "border-gray-300"] (Some 2))).
  reflexivity.
Defined.

(* ===================================================================== *)
(** ** What the user typed *)
(* ===================================================================== *)

Global Instance valueKept_refl : Reflexive valueKept.
Proof. intros e. reflexivity. Qed.

Global Instance valueKept_trans : Transitive valueKept.
Proof. intros e1 e2 e3 H1 H2. unfold valueKept in *. congruence. Qed.

Lemma frame_update K `{!Reflexive K} r f :
  (forall e, K e (f e)) -> preserves (frame K) (update r f).
Proof.
  intros Hf p. rewrite exec_update. destruct r as [n|]; [|reflexivity].
  destruct (deref (Some n) p) as [e|] eqn:E; [|reflexivity].
  apply (frame_insert K p n e (f e) E (Hf e)).
Qed.

Lemma frame_createElement K `{!Reflexive K} tag : preserves (frame K) (createElement tag).
Proof.
  intros p n e Hn. exists e. split; [|reflexivity].
  unfold exec, createElement. cbn [snd doc with_doc].
  rewrite lookup_app_l by (eapply lookup_lt_Some; eassumption). exact Hn.
Qed.

Lemma frame_reader {A} R `{!Reflexive R} r (g : Element -> A) :
  preserves R (let* e := element r in ret (g e)).
Proof.
  intros p. unfold exec. rewrite bind_element. destruct (deref r p); reflexivity.
Qed.

Lemma frame_setTimeout K `{!Reflexive K} cb delay : preserves (frame K) (setTimeout cb delay).
Proof. intros p. apply frame_same_doc; [assumption | reflexivity]. Qed.

Lemma frame_addEventListener_any K `{!Reflexive K} r ev l :
  preserves (frame K) (addEventListener r ev l).
Proof.
  intros p. unfold exec, addEventListener. rewrite bind_element.
  destruct (deref r p); [|reflexivity]. destruct r; [|reflexivity].
  apply frame_same_doc; [assumption | reflexivity].
Qed.

Ltac value_step :=
  lazymatch goal with
  | |- preserves _ (bind _ _) => apply preserves_bind; [apply _ | | intros ?]
  | |- preserves _ (forEach _ _) => apply preserves_forEach; [apply _ | apply _ | intros ?]
  | |- preserves _ (ret _) => apply preserves_ret; apply _
  | |- preserves _ (getElementById _) => apply preserves_getElementById; apply _
  | |- preserves _ (element _) => apply preserves_element; apply _
  | |- preserves _ (createElement _) => apply frame_createElement; apply _
  | |- preserves _ (classList_contains _ _) => apply frame_reader; apply _
  | |- preserves _ (get_nextElementSibling _) => apply frame_reader; apply _
  | |- preserves _ (scrollIntoView _) => apply frame_reader; apply _
  | |- preserves _ (setTimeout _ _) => apply frame_setTimeout; apply _
  | |- preserves _ (addEventListener _ _ _) => apply frame_addEventListener_any; apply _
  | |- preserves _ (querySelectorAll_input_textarea) => intros ?; reflexivity
  | |- preserves _ (appendChild _ ?c) =>
      apply frame_update; [apply _ | intros ?; destruct c; reflexivity]
  | |- preserves _ (classList_add _ _) => apply frame_update; [apply _ | intros ?; reflexivity]
  | |- preserves _ (classList_remove _ _) => apply frame_update; [apply _ | intros ?; reflexivity]
  | |- preserves _ (set_textContent _ _) => apply frame_update; [apply _ | intros ?; reflexivity]
  | |- preserves _ (clear_innerHTML _) => apply frame_update; [apply _ | intros ?; reflexivity]
  | |- preserves _ (match ?x with Some _ => _ | None => _ end) => destruct x
  | |- preserves _ (if ?b then _ else _) => destruct b
  end.

Lemma values_clearErrors : preserves (frame valueKept) clearErrors.
Proof. unfold clearErrors. repeat value_step. Qed.

Lemma values_showErrors errors : preserves (frame valueKept) (showErrors errors).
Proof. unfold showErrors. repeat value_step. Qed.

Lemma values_validateSingleField field : preserves (frame valueKept) (validateSingleField field).
Proof. unfold validateSingleField. repeat value_step. Qed.

Lemma values_onInput this : preserves (frame valueKept) (onInput this).
Proof. unfold onInput. repeat value_step. Qed.

Lemma values_runOther o : preserves (frame valueKept) (runOther o).
Proof.
  destruct o; cbn [runOther].
  - apply values_clearErrors.
  - apply values_showErrors.
  - apply values_validateSingleField.
  - apply values_validateSingleField.
  - apply values_onInput.
  - value_step.
  - value_step.
  - unfold setupFormSubmission. repeat value_step.
  - unfold setupRealTimeValidation. repeat value_step.
Qed.

(** X9: none of the feedback operations changes the value of an element:
    after clearErrors, showErrors, a blur or input listener, a shake or
    hide callback or the set-up functions, and after a submit whose record
    has errors, every element is still there and holds the value it held. *)
Theorem feedback_keeps_values (p : Page) (n : node) (e : Element) :
  doc p !! n = Some e ->
  (forall o, exists e', doc (exec (runOther o) p) !! n = Some e' /\ value e' = value e) /\
  (forall createIcons fd raw,
     rawRecord fd = Some raw -> validateForm (trimmed raw) <> [] ->
     exists e', doc (exec (onSubmit createIcons fd) p) !! n = Some e' /\ value e' = value e).
Proof.
  intros Hn. split.
  - intros o. exact (values_runOther o p n e Hn).
  - intros createIcons fd raw Hraw Herr.
    unfold exec. rewrite (onSubmit_invalid createIcons fd raw p Hraw Herr).
    refine (preserves_bind (frame valueKept) clearErrors
              (fun _ => showErrors (validateForm (trimmed raw))) _ _ p n e Hn).
    + apply values_clearErrors.
    + intros _. apply values_showErrors.
Qed.

Lemma feedback_keeps_values_witness :
  exists e',
    doc (exec (runOther (DoShowErrors
                 [{| field := lit "name"; message := lit "Name is required" |}]))
              (samplePage (lit "A") [] [] [])) !! 1 = Some e' /\
    value e' = lit "A".
Proof.
  apply (feedback_keeps_values (samplePage (lit "A") [] [] []) 1
           (sampleField (Some 0) "name" (lit "A") [lit "border-gray-300"] (Some 2))
           eq_refl).
Defined.

(* ===================================================================== *)
(** ** Submitting and loading: the edges *)
(* ===================================================================== *)

(** X10: when the form data lacks one of the four entries, the submit
    listener throws after clearErrors: the page is the one clearErrors
    leaves, with no validation feedback, no loading state and no timer. *)
Theorem submit_with_missing_entry (createIcons : M unit) (fd : FormData) (p : Page) :
  rawRecord fd = None ->
  fst (onSubmit createIcons fd p) = Throw /\
  exec (onSubmit createIcons fd) p = exec clearErrors p.
Proof.
  intros Hraw. unfold exec, onSubmit, bind.
  destruct (clearErrors p) as [[[]|] p1]; [|split; reflexivity].
  unfold rawRecord in Hraw. unfold get_trim.
  destruct (formData_get (lit "name") fd); [|split; reflexivity].
  destruct (formData_get (lit "email") fd); [|split; reflexivity].
  destruct (formData_get (lit "subject") fd); [|split; reflexivity].
  destruct (formData_get (lit "message") fd); [discriminate | split; reflexivity].
Qed.

Lemma submit_with_missing_entry_witness :
  fst (onSubmit (ret tt) [(lit "name", lit "Al")] (samplePage (lit "Al") [] [] [])) = Throw /\
  exec (onSubmit (ret tt) [(lit "name", lit "Al")]) (samplePage (lit "Al") [] [] []) =
  exec clearErrors (samplePage (lit "Al") [] [] []).
Proof.
  apply (submit_with_missing_entry (ret tt) [(lit "name", lit "Al")]
           (samplePage (lit "Al") [] [] [])).
  reflexivity.
Defined.





(* ===================================================================== *)
(** ** Clearing the error display *)
(* ===================================================================== *)

Global Instance clearedOn_refl : Reflexive clearedOn.
Proof. intros e. split; [reflexivity | tauto | tauto]. Qed.

Global Instance clearedOn_trans : Transitive clearedOn.
Proof.
  intros e1 e2 e3 [K1 U1 H1] [K2 U2 H2].
  split; [etransitivity; eassumption | tauto | tauto].
Qed.

Lemma completes_bind {A B} (m : M A) (k : A -> M B) p :
  completes m p ->
  (forall a, fst (m p) = Normal a -> completes (k a) (exec m p)) ->
  completes (bind m k) p.
Proof.
  intros [a Ha] Hk. destruct (Hk a Ha) as [b Hb]. exists b.
  unfold bind, exec in *. destruct (m p) as [[a'|] p']; [|discriminate].
  cbn [fst snd] in *. injection Ha as ->. exact Hb.
Qed.

Lemma exec_bind_Normal {A B} (m : M A) (k : A -> M B) p a :
  fst (m p) = Normal a -> exec (bind m k) p = exec (k a) (exec m p).
Proof. intros Ha. rewrite exec_bind, Ha. reflexivity. Qed.

Lemma fst_bind_Normal {A B} (m : M A) (k : A -> M B) p a :
  fst (m p) = Normal a -> fst (bind m k p) = fst (k a (exec m p)).
Proof.
  intros Ha. unfold bind, exec. destruct (m p) as [[a'|] p']; [|discriminate].
  cbn [fst snd] in *. injection Ha as ->. reflexivity.
Qed.

(** A loop whose every round completes and extends what holds. *)
Lemma forEach_rounds {A} (I : list A -> Page -> Prop) (f : A -> M unit) (l : list A) :
  (forall done x q, I done q ->
     fst (f x q) = Normal tt /\ I (done ++ [x]) (exec (f x) q)) ->
  forall done p, I done p ->
    fst (forEach l f p) = Normal tt /\ I (done ++ l) (exec (forEach l f) p).
Proof.
  intros Hf. induction l as [|x l IH]; intros done p HI.
  - rewrite app_nil_r. split; [reflexivity | exact HI].
  - destruct (Hf done x p HI) as [Hx HI']. cbn [forEach].
    rewrite (fst_bind_Normal _ _ p tt Hx), (exec_bind_Normal _ _ p tt Hx).
    replace (done ++ x :: l) with ((done ++ [x]) ++ l) by (rewrite <- app_assoc; reflexivity).
    apply IH. exact HI'.
Qed.

(** The statements by which clearErrors and the input listener take the
    error state off a field, run on a field whose sibling, if any, is an
    element of the page. *)
Lemma unmark_run p n e :
  doc p !! n = Some e ->
  (forall s, nextElementSibling e = Some s -> s < length (doc p)) ->
  exists p',
    (classList_remove (Some n) [lit "border-red-500"; lit "bg-red-50"] ;;
     classList_add (Some n) [lit "border-gray-300"] ;;
     let* errorDiv := get_nextElementSibling (Some n) in
     match errorDiv with
     | Some _ =>
         let* c := classList_contains errorDiv (lit "error-message") in
         if c then classList_add errorDiv [lit "hidden"] else ret tt
     | None => ret tt
     end) p = (Normal tt, p') /\
    (exists e', doc p' !! n = Some e' /\ unmarked e' /\
                nextElementSibling e' = nextElementSibling e) /\
    (forall s, nextElementSibling e = Some s ->
       exists d', doc p' !! s = Some d' /\ hiddenIfError d').
Proof.
  intros Hn Hlive. pose proof (lookup_lt_Some _ _ _ Hn) as Hlen.
  set (e1 := with_classList (tokens_remove (classList e)
                [lit "border-red-500"; lit "bg-red-50"]) e).
  set (p1 := with_doc (<[n := e1]> (doc p)) p).
  assert (H1 : doc p1 !! n = Some e1) by (apply list_lookup_insert_eq; exact Hlen).
  set (e2 := with_classList (tokens_add (classList e1) [lit "border-gray-300"]) e1).
  set (p2 := with_doc (<[n := e2]> (doc p1)) p1).
  assert (Hlen2 : length (doc p2) = length (doc p))
    by (unfold p2, p1; cbn [doc with_doc]; rewrite !length_insert; reflexivity).
  assert (H2 : doc p2 !! n = Some e2)
    by (apply list_lookup_insert_eq; unfold p1; cbn [doc with_doc];
        rewrite length_insert; exact Hlen).
  assert (Hun : unmarked e2).
  { unfold unmarked, e2, e1. cbn [classList with_classList].
    rewrite !tokens_add_elem, !tokens_remove_elem. repeat split.
    - intros [[_ H]|H]; [apply H, list_elem_of_here | revert H; not_token].
    - intros [[_ H]|H];
        [apply H, list_elem_of_further, list_elem_of_here | revert H; not_token].
    - right. apply list_elem_of_here. }
  unfold classList_remove. rewrite bind_update. unfold deref. rewrite Hn. fold e1 p1.
  unfold classList_add at 1. rewrite bind_update. unfold deref. rewrite H1. fold e2 p2.
  unfold get_nextElementSibling. rewrite bind_assoc, bind_element. unfold deref.
  rewrite H2, bind_ret. change (nextElementSibling e2) with (nextElementSibling e).
  destruct (nextElementSibling e) as [s|] eqn:Hs.
  - assert (Hs2 : s < length (doc p2)) by (rewrite Hlen2; apply Hlive; reflexivity).
    apply lookup_lt_is_Some in Hs2 as [d Hd].
    unfold classList_contains. rewrite bind_assoc, bind_element. unfold deref.
    rewrite Hd, bind_ret.
    destruct (bool_decide (lit "error-message" ∈ classList d)) eqn:Hc.
    + unfold classList_add, update. rewrite bind_element. unfold deref. rewrite Hd.
      eexists. split; [reflexivity|]. cbn [doc with_doc].
      set (d' := with_classList (tokens_add (classList d) [lit "hidden"]) d).
      assert (Hhid : lit "hidden" ∈ classList d').
      { unfold d'. cbn [classList with_classList]. apply tokens_add_elem. right.
        apply list_elem_of_here. }
      destruct (decide (s = n)) as [->|Hsn].
      * rewrite H2 in Hd. injection Hd as <-.
        assert (Hun' : unmarked d').
        { destruct Hun as (U1 & U2 & U3). unfold unmarked, d'.
          cbn [classList with_classList]. rewrite !tokens_add_elem. repeat split.
          - intros [H|H]; [exact (U1 H) | revert H; not_token].
          - intros [H|H]; [exact (U2 H) | revert H; not_token].
          - left. exact U3. }
        split.
        -- exists d'. rewrite list_lookup_insert_eq by (rewrite Hlen2; exact Hlen). auto.
        -- intros s' [= <-]. exists d'.
           rewrite list_lookup_insert_eq by (rewrite Hlen2; exact Hlen).
           split; [reflexivity | intros _; exact Hhid].
      * split.
        -- exists e2. rewrite list_lookup_insert_ne by congruence. auto.
        -- intros s' [= <-]. exists d'.
           rewrite list_lookup_insert_eq by (eapply lookup_lt_Some; eassumption).
           split; [reflexivity | intros _; exact Hhid].
    + apply bool_decide_eq_false in Hc. eexists. split; [reflexivity|]. split.
      * exists e2. auto.
      * intros s' [= <-]. exists d. split; [exact Hd | intros Herr; contradiction].
  - eexists. split; [reflexivity|]. split.
    + exists e2. auto.
    + intros s. discriminate.
Qed.

Lemma clearedOn_add e tokens :
  lit "border-red-500" ∉ tokens -> lit "bg-red-50" ∉ tokens ->
  lit "error-message" ∉ tokens ->
  clearedOn e (with_classList (tokens_add (classList e) tokens) e).
Proof.
  intros Hb Hg He. split.
  - apply kept_classList. rewrite tokens_add_elem. unfold errorClass. tauto.
  - unfold unmarked. cbn [classList with_classList]. rewrite !tokens_add_elem. tauto.
  - cbn [classList with_classList]. rewrite tokens_add_elem. tauto.
Qed.

Lemma clearedOn_remove e tokens :
  lit "border-gray-300" ∉ tokens -> lit "hidden" ∉ tokens ->
  lit "error-message" ∉ tokens ->
  clearedOn e (with_classList (tokens_remove (classList e) tokens) e).
Proof.
  intros Hb Hg He. split.
  - apply kept_classList. rewrite tokens_remove_elem. unfold errorClass. tauto.
  - unfold unmarked. cbn [classList with_classList]. rewrite !tokens_remove_elem. tauto.
  - cbn [classList with_classList]. rewrite tokens_remove_elem. tauto.
Qed.

Ltac cleared_step :=
  lazymatch goal with
  | |- preserves _ (bind _ _) => apply preserves_bind; [apply _ | | intros ?]
  | |- preserves _ (ret _) => apply preserves_ret; apply _
  | |- preserves _ (getElementById _) => apply preserves_getElementById; apply _
  | |- preserves _ (classList_contains _ _) => apply frame_reader; apply _
  | |- preserves _ (get_nextElementSibling _) => apply frame_reader; apply _
  | |- preserves _ (classList_add _ _) =>
      apply frame_update; [apply _ | intros ?; apply clearedOn_add; not_token]
  | |- preserves _ (classList_remove _ _) =>
      apply frame_update; [apply _ | intros ?; apply clearedOn_remove; not_token]
  | |- preserves _ (match ?x with Some _ => _ | None => _ end) => destruct x
  | |- preserves _ (if ?b then _ else _) => destruct b
  end.

(** One round of the loop of clearErrors never undoes what was cleared. *)
Lemma cleared_round fieldName :
  preserves (frame clearedOn)
    (let* field := getElementById fieldName in
     match field with
     | Some _ =>
         classList_remove field [lit "border-red-500"; lit "bg-red-50"] ;;
         classList_add field [lit "border-gray-300"] ;;
         let* errorDiv := get_nextElementSibling field in
         match errorDiv with
         | Some _ =>
             let* c := classList_contains errorDiv (lit "error-message") in
             if c then classList_add errorDiv [lit "hidden"] else ret tt
         | None => ret tt
         end
     | None => ret tt
     end).
Proof. repeat cleared_step. Qed.

(** The element at a node shows no error, and its sibling, if it is an
    inline error message, is hidden. *)
Definition clearedAt (n : node) (q : Page) : Prop :=
  exists e', doc q !! n = Some e' /\ unmarked e' /\
    forall s, nextElementSibling e' = Some s ->
      exists d', doc q !! s = Some d' /\ hiddenIfError d'.

Definition hiddenAt (n : node) (q : Page) : Prop :=
  exists e', doc q !! n = Some e' /\ lit "hidden" ∈ classList e'.

Lemma clearedAt_frame n q q' : frame clearedOn q q' -> clearedAt n q -> clearedAt n q'.
Proof.
  intros HF (e & He & Hun & Hsib). destruct (HF n e He) as (e' & He' & Hc).
  exists e'. split; [exact He'|]. split; [apply Hc; exact Hun|].
  intros s Hs. rewrite (kept_next _ _ (co_kept _ _ Hc)) in Hs.
  destruct (Hsib s Hs) as (d & Hd & Hh). destruct (HF s d Hd) as (d' & Hd' & Hcd).
  exists d'. split; [exact Hd'|]. intros Herr. apply Hcd, Hh.
  apply (bk_errorClass _ _ (kept_button _ _ (co_kept _ _ Hcd))). exact Herr.
Qed.

Lemma hiddenAt_frame n q q' : frame clearedOn q q' -> hiddenAt n q -> hiddenAt n q'.
Proof.
  intros HF (e & He & Hh). destruct (HF n e He) as (e' & He' & Hc).
  exists e'. split; [exact He' | apply Hc; exact Hh].
Qed.

Lemma frame_length K p p' : frame K p p' -> length (doc p) <= length (doc p').
Proof.
  intros HF. destruct (decide (length (doc p) <= length (doc p'))) as [|Hgt]; [assumption|].
  assert (Hlt : length (doc p) - 1 < length (doc p)) by lia.
  apply lookup_lt_is_Some in Hlt as [e He]. destruct (HF _ e He) as (e' & He' & _).
  apply lookup_lt_Some in He'. lia.
Qed.

(** Adding [hidden] to the element of an id. *)
Lemma hide_found p i n :
  find_id i (doc p) = Some n ->
  exists p',
    (let* r := getElementById i in classList_add r [lit "hidden"]) p = (Normal tt, p') /\
    frame clearedOn p p' /\ length (doc p') = length (doc p) /\ hiddenAt n p'.
Proof.
  intros Hn. destruct (find_id_lookup _ _ _ Hn) as (e & He & _).
  pose proof (lookup_lt_Some _ _ _ He) as Hlen.
  unfold bind at 1, getElementById. rewrite Hn.
  unfold classList_add, update. rewrite bind_element. unfold deref. rewrite He.
  eexists. split; [reflexivity|]. split; [|split].
  - apply (frame_insert clearedOn p n e _ He). apply clearedOn_add; not_token.
  - cbn [doc with_doc]. apply length_insert.
  - eexists. cbn [doc with_doc]. rewrite list_lookup_insert_eq by exact Hlen.
    split; [reflexivity|]. cbn [classList with_classList]. apply tokens_add_elem.
    right. apply list_elem_of_here.
Qed.
